(** * climpred.relative_entropy: relative entropy of an initialized ensemble

    A shallow embedding of [src/climpred/relative_entropy.py].

    - numpy's float64 scalars are idealised as the real numbers of the
      Standard Library ([R], with its [ln]); arrays of rank two are MathComp
      matrices ['M[R]_n], arrays of rank one are row vectors ['rV[R]_n];
      where a statement is about a division by zero or the logarithm of
      zero, the formula is also given with numpy's infinities and NaN
      ([np_float]);
    - the engine hands the formula [xr.DataArray] wrappers, not arrays:
      [np.cov] squeezes the covariance of one variable to a 0-d array, on
      which [np.linalg.det] raises [LinAlgError], and [np.matmul], a
      generalized ufunc from numpy 1.16 on, is refused by xarray with
      [NotImplementedError]; the model takes such a numpy;
    - Python exceptions are values of an error monad; the effects the module
      has (numpy's process-wide random source, calls into the collaborators
      [_pseudo_ens], [Eof] and [projectField]) are threaded through an
      explicit world;
    - the collaborators that live outside the file ([numpy.linalg.lstsq],
      [climpred.prediction._pseudo_ens], [eofs.xarray.Eof]) are Section
      variables, with their documented contract as Section hypotheses;
    - two places of the file are not well-formed Python (an assignment
      broken after its [=] on lines 72-73, a guard without a suite on line
      109); each is read as said where it is modelled, and names that
      nothing binds raise [NameError] as they do when Python runs the line;
      the braces of line 130 hold two adjacent string literals, one string,
      and belong to the preparation of the argument of [Eof]. *)

From HB Require Import structures.
From Stdlib Require Import Reals Lra Lia ZArith String.
From Stdlib Require Import Epsilon FunctionalExtensionality.
From mathcomp Require Import boot ssralg zmodp matrix mxalgebra.

Set Implicit Arguments.
Unset Strict Implicit.
Unset Printing Implicit Defensive.

(** ** The reals as a MathComp field *)

Definition eqr (x y : R) : bool :=
  if Req_EM_T x y is left _ then true else false.

Lemma eqrP : Equality.axiom eqr.
Proof. by move=> x y; rewrite /eqr; case: Req_EM_T => h; constructor. Qed.

HB.instance Definition _ := hasDecEq.Build R eqrP.

Definition findr (P : pred R) (_ : nat) : option R :=
  let x := epsilon (inhabits (IZR 0)) (fun y => P y : Prop) in
  if P x then Some x else None.

Lemma findr_correct (P : pred R) n x : findr P n = Some x -> P x.
Proof. by rewrite /findr; case: ifP => // Px [<-]. Qed.

Lemma findr_complete (P : pred R) : (exists x, P x) -> exists n, findr P n.
Proof.
move=> exP; exists 0%N; rewrite /findr.
by rewrite (epsilon_spec (inhabits R0) (fun y => P y : Prop) exP).
Qed.

Lemma findr_ext (P Q : pred R) : P =1 Q -> findr P =1 findr Q.
Proof.
move=> eqPQ n; have -> : P = Q by apply: functional_extensionality.
by [].
Qed.

HB.instance Definition _ :=
  hasChoice.Build R findr_correct findr_complete findr_ext.

Lemma RaddA : associative Rplus.
Proof. by move=> x y z; rewrite Rplus_assoc. Qed.

Lemma Radd0 : left_id (IZR 0) Rplus.
Proof. exact: Rplus_0_l. Qed.

Lemma RaddN : left_inverse (IZR 0) Ropp Rplus.
Proof. exact: Rplus_opp_l. Qed.

HB.instance Definition _ :=
  GRing.isZmodule.Build R RaddA Rplus_comm Radd0 RaddN.

Lemma RmulA : associative Rmult.
Proof. by move=> x y z; rewrite Rmult_assoc. Qed.

Lemma Rmul1 : left_id (IZR 1) Rmult.
Proof. exact: Rmult_1_l. Qed.

Lemma RmulDl : left_distributive Rmult Rplus.
Proof. by move=> x y z; rewrite Rmult_plus_distr_r. Qed.

Lemma R1_neq0 : IZR 1 != IZR 0.
Proof. by apply/eqP; exact: R1_neq_R0. Qed.

HB.instance Definition _ :=
  GRing.Zmodule_isComNzRing.Build R RmulA Rmult_comm Rmul1 RmulDl R1_neq0.

(** [Rinv] is total, with [/ 0 = 0] in the Standard Library. *)
Lemma RmulV (x : R) : x != IZR 0 -> Rmult (Rinv x) x = IZR 1.
Proof. by move=> /eqP x0; rewrite Rinv_l. Qed.

HB.instance Definition _ := GRing.ComNzRing_isField.Build R RmulV Rinv_0.


Import GRing.Theory.
Local Open Scope ring_scope.
Delimit Scope R_scope with Re.

(** ** Python exceptions and results *)

(** An exception is identified by the name of its class. *)
Inductive exn : Type := PyExc (cls : string).

Definition NameError : exn := PyExc "NameError".
Definition ZeroDivisionError : exn := PyExc "ZeroDivisionError".
Definition ValueError : exn := PyExc "ValueError".
Definition KeyError : exn := PyExc "KeyError".
Definition LinAlgError : exn := PyExc "LinAlgError".
Definition NotImplementedError : exn := PyExc "NotImplementedError".

Inductive result (A : Type) : Type :=
| Ok (a : A)
| Err (e : exn).
Arguments Ok {A} a.
Arguments Err {A} e.

Definition rbind {A B : Type} (r : result A) (k : A -> result B) : result B :=
  match r with
  | Ok a => k a
  | Err e => Err e
  end.

(** ** numpy on two-dimensional and one-dimensional arrays *)

(** [a / b] on two arrays of the same shape divides entry by entry. *)
Definition np_divide (m n : nat) (a b : 'M[R]_(m, n)) : 'M[R]_(m, n) :=
  \matrix_(i, j) (a i j / b i j).

(** [np.matmul] of two one-dimensional arrays is their inner product. *)
Definition np_matmul1 (n : nat) (u v : 'rV[R]_n) : R :=
  \sum_(i < n) u 0 i * v 0 i.

(** What [np.linalg.lstsq a b] returns for a one-dimensional [b]:
    the solution, the residuals, the rank of [a], its singular values. *)
Definition lstsq_out (n : nat) : Type :=
  ('rV[R]_n * seq R * nat * seq R)%type.

(** Symmetric positive-definite matrices. *)
Definition symmetric (n : nat) (A : 'M[R]_n) : Prop := A^T = A.

Definition quadform (n : nat) (A : 'M[R]_n) (v : 'rV[R]_n) : R :=
  (v *m A *m v^T) 0 0.

Definition posdef (n : nat) (A : 'M[R]_n) : Prop :=
  forall v : 'rV[R]_n, v != 0 -> Rlt 0 (quadform A v).

Definition spd (n : nat) (A : 'M[R]_n) : Prop := symmetric A /\ posdef A.

(** ** The relative-entropy formula (lines 12-46) *)

Section Formula.

(** [np.linalg.lstsq], of numpy. *)
Variable lstsq : forall n : nat, 'M[R]_n -> 'rV[R]_n -> result (lstsq_out n).

Definition _relative_entropy_formula (n : nat)
    (sigma_b sigma_x : 'M[R]_n) (mu_x mu_b : 'rV[R]_n) (neofs : nat)
  : result (R * R * R) :=
  let fac := (1 / 2)%Re in
  let dispersion :=
    fac * (ln (\det sigma_b / \det sigma_x)%R
           + \tr (np_divide sigma_x sigma_b) - INR neofs) in
  rbind (lstsq sigma_b (mu_x - mu_b)) (fun '(x, resid, rank, s) =>
  let signal := fac * np_matmul1 (mu_x - mu_b) x in
  let R := dispersion + signal in
  Ok (R, dispersion, signal)).

(** The formula as the specification writes it, with the matrix inverse. *)
Definition spec_dispersion (n : nat) (sigma_b sigma_x : 'M[R]_n) : R :=
  (1 / 2)%Re * (ln (\det sigma_b / \det sigma_x)%R
               + \tr (sigma_x *m invmx sigma_b) - INR n).

Definition spec_signal (n : nat) (sigma_b : 'M[R]_n) (mu_x mu_b : 'rV[R]_n)
  : R :=
  (1 / 2)%Re
  * ((mu_x - mu_b) *m invmx sigma_b *m (mu_x - mu_b)^T) 0 0.

End Formula.

(** ** The formula with numpy's infinities and NaN

    A float64 is a real number, an infinity or NaN.  Dividing by zero and
    taking the logarithm of zero raise nothing in numpy: they warn and give
    a special value.  Finite values stay idealised as reals, and the zero
    of the model has no sign. *)
Inductive np_float : Type :=
| Fin (x : R)
| PInf
| NInf
| NaN.

Definition Rltb (x y : R) : bool :=
  if Rlt_dec x y is left _ then true else false.

(** [a / b] of two finite values. *)
Definition np_fdiv (a b : R) : np_float :=
  if b != 0 then Fin (a / b)
  else if Rltb 0 a then PInf
  else if Rltb a 0 then NInf
  else NaN.

Definition np_log (q : np_float) : np_float :=
  match q with
  | Fin x => if Rltb 0 x then Fin (ln x) else if x == 0 then NInf else NaN
  | PInf => PInf
  | NInf => NaN
  | NaN => NaN
  end.

Definition np_neg (a : np_float) : np_float :=
  match a with
  | Fin x => Fin (- x)
  | PInf => NInf
  | NInf => PInf
  | NaN => NaN
  end.

Definition np_add (a b : np_float) : np_float :=
  match a, b with
  | NaN, _ | _, NaN => NaN
  | PInf, NInf | NInf, PInf => NaN
  | PInf, _ | _, PInf => PInf
  | NInf, _ | _, NInf => NInf
  | Fin x, Fin y => Fin (x + y)
  end.

Definition np_sub (a b : np_float) : np_float := np_add a (np_neg b).

(** The product of an infinity with a finite [x]. *)
Definition scaled_inf (positive : bool) (x : R) : np_float :=
  if Rltb 0 x then (if positive then PInf else NInf)
  else if Rltb x 0 then (if positive then NInf else PInf)
  else NaN.

Definition np_mul (a b : np_float) : np_float :=
  match a, b with
  | NaN, _ | _, NaN => NaN
  | Fin x, Fin y => Fin (x * y)
  | Fin x, PInf | PInf, Fin x => scaled_inf true x
  | Fin x, NInf | NInf, Fin x => scaled_inf false x
  | PInf, PInf | NInf, NInf => PInf
  | PInf, NInf | NInf, PInf => NInf
  end.

(** [np.trace(a / b)]: the sum of the diagonal of the entry-wise quotient. *)
Definition np_trace_divide (n : nat) (a b : 'M[R]_n) : np_float :=
  \big[np_add/Fin 0]_(i < n) np_fdiv (a i i) (b i i).

Section FormulaFloat.

Variable lstsq : forall n : nat, 'M[R]_n -> 'rV[R]_n -> result (lstsq_out n).

(** Lines 36-46 once more, with the special values.  The least-squares
    call returns finite values or raises. *)
Definition _relative_entropy_formula_float (n : nat)
    (sigma_b sigma_x : 'M[R]_n) (mu_x mu_b : 'rV[R]_n) (neofs : nat)
  : result (np_float * np_float * np_float) :=
  let fac := Fin (1 / 2)%Re in
  let dispersion :=
    np_mul fac
      (np_sub
         (np_add (np_log (np_fdiv (\det sigma_b) (\det sigma_x)))
            (np_trace_divide sigma_x sigma_b))
         (Fin (INR neofs))) in
  rbind (lstsq sigma_b (mu_x - mu_b)) (fun '(x, resid, rank, s) =>
  let signal := np_mul fac (Fin (np_matmul1 (mu_x - mu_b) x)) in
  let R := np_add dispersion signal in
  Ok (R, dispersion, signal)).

End FormulaFloat.

(** ** Labelled arrays (xarray) and tables (pandas) *)

(** A spatial field at one (initialization, member, time), flattened. *)
Definition grid : Type := seq R.

(** The values one member holds: a field per initialization and lead time. *)
Definition member_block : Type := seq (seq grid).

(** An [xr.DataArray] with dimensions initialization, member, time and
    space.  The coordinate labels are kept per dimension; the values are
    stored member-major, one block per position on the member axis. *)
Record DataArray : Type := mkDataArray {
  initialization : seq Z;
  member : seq Z;
  time : seq Z;
  lat : seq R;
  blocks : seq member_block
}.

(** A control run: dimensions time and space. *)
Record ControlSeries : Type := mkControlSeries {
  ctime : seq Z;
  cvalues : seq grid
}.

(** [da.member.size], [da.time.size]. *)
Definition member_size (da : DataArray) : nat := size (member da).
Definition time_size (da : DataArray) : nat := size (time da).

(** [np.arange(k)] and [np.arange(a, b)]. *)
Definition np_arange (k : nat) : seq Z := [seq Z.of_nat i | i <- iota 0 k].
Definition np_arange2 (a b : nat) : seq Z :=
  [seq Z.of_nat i | i <- iota a (b - a)].

(** [s[:k]] for a Python integer [k]. *)
Definition py_take (A : Type) (k : Z) (s : seq A) : seq A :=
  if (0 <=? k)%Z then take (Z.to_nat k) s
  else take (size s - Z.to_nat (- k)) s.

(** [int(a / b)] for two Python integers: true division, then truncation
    towards zero; a zero divisor raises.  The quotient is a float64 and is
    idealised as exact, like every float64 here: for [|a| < 2^52] the
    truncated float is the integer quotient; further out the float rounds,
    and beyond its range Python raises [OverflowError], which the model
    does not follow. *)
Definition py_int_div (a b : Z) : result Z :=
  if (b =? 0)%Z then Err ZeroDivisionError else Ok (Z.quot a b).

(** [range(k)] runs [k] times, and not at all for [k <= 0]. *)
Definition py_range (k : Z) : seq nat := iota 0 (Z.to_nat k).

(** Position of a label on an axis. *)
Definition label_pos (x : Z) (s : seq Z) : option nat :=
  let i := find (Z.eqb x) s in if (i < size s)%N then Some i else None.

(** [da['initialization'] = labels] and [da['member'] = labels]: the new
    coordinate has to fit the dimension. *)
Definition set_initialization (da : DataArray) (labels : seq Z)
  : result DataArray :=
  if size labels == size (initialization da) then
    Ok (mkDataArray labels (member da) (time da) (lat da) (blocks da))
  else Err ValueError.

Definition set_member (da : DataArray) (labels : seq Z) : result DataArray :=
  if size labels == size (member da) then
    Ok (mkDataArray (initialization da) labels (time da) (lat da) (blocks da))
  else Err ValueError.

(** [xr.concat(pieces, 'member')], for pieces that agree on the other
    dimensions (here the pieces are rounds over one reference ensemble):
    labels and blocks are appended along the member axis.  An empty list
    raises. *)
Definition xr_concat_member (pieces : seq DataArray) : result DataArray :=
  match pieces with
  | [::] => Err ValueError
  | da :: _ =>
    Ok (mkDataArray (initialization da) (flatten [seq member p | p <- pieces])
          (time da) (lat da) (flatten [seq blocks p | p <- pieces]))
  end.

(** [da.sel(initialization=init, time=t).drop('time').rename(...)]: the field
    of every member at one initialization and lead time. *)
Definition sel (da : DataArray) (init t : Z) : result (seq grid) :=
  match label_pos init (initialization da), label_pos t (time da) with
  | Some i, Some k => Ok [seq nth [::] (nth [::] b i) k | b <- blocks da]
  | _, _ => Err KeyError
  end.

(** The three components of a result column. *)
Inductive component : Type := comp_R | comp_S | comp_D.

Definition component_eqb (c1 c2 : component) : bool :=
  match c1, c2 with
  | comp_R, comp_R | comp_S, comp_S | comp_D, comp_D => true
  | _, _ => false
  end.

(** A [pd.DataFrame] with an integer row index and columns keyed by
    (component, initialization); a missing cell (NaN) is [None]. *)
Record DataFrame : Type := mkDataFrame {
  df_index : seq Z;
  df_index_name : option string;
  df_columns : seq (component * Z);
  df_cells : seq (seq (option R))
}.

(** [pd.MultiIndex.from_product([components, initializations])]. *)
Definition from_product (cs : seq component) (inits : seq Z)
  : seq (component * Z) :=
  flatten [seq [seq (c, i) | i <- inits] | c <- cs].

(** [pd.DataFrame(index=tt, columns=mindex)]: every cell is missing. *)
Definition empty_frame (tt : seq Z) (mindex : seq (component * Z))
  : DataFrame :=
  mkDataFrame tt None mindex (nseq (size tt) (nseq (size mindex) None)).

Definition column_pos (c : component) (k : Z) (cols : seq (component * Z))
  : option nat :=
  let i := find (fun ck => component_eqb c ck.1 && Z.eqb k ck.2) cols in
  if (i < size cols)%N then Some i else None.

(** [df.T.loc[c, k][t] = v].  The frame has a single dtype, so the
    transpose and the row taken from it are views and the assignment
    reaches [df]; a column that does not exist raises, a row label that does
    not exist only enlarges the temporary row. *)
Definition df_setitem (df : DataFrame) (c : component) (k t : Z) (v : R)
  : result DataFrame :=
  match column_pos c k (df_columns df) with
  | None => Err KeyError
  | Some j =>
    match label_pos t (df_index df) with
    | None => Ok df
    | Some i =>
      let row := nth [::] (df_cells df) i in
      Ok (mkDataFrame (df_index df) (df_index_name df) (df_columns df)
            (set_nth [::] (df_cells df) i (set_nth None row j (Some v))))
    end
  end.

(** [pd.concat(frames, ignore_index=True)] for frames with the same columns:
    rows are appended and renumbered from zero; an empty list raises. *)
Definition pd_concat (frames : seq DataFrame) : result DataFrame :=
  match frames with
  | [::] => Err ValueError
  | df :: _ =>
    let cells := flatten [seq df_cells f | f <- frames] in
    Ok (mkDataFrame (np_arange (size cells)) None (df_columns df) cells)
  end.

(** [df.stack()] drops what holds no value: of a table without any filled
    cell it leaves an empty frame, on which [apply] calls nothing and which
    it hands back as it is. *)
Definition all_missing (df : DataFrame) : bool :=
  all (all (fun c : option R => ~~ isSome c)) (df_cells df).

(** The values [df.stack()] gathers under one component: the filled cells
    of the columns of that component, row by row. *)
Definition pooled (df : DataFrame) (c : component) : seq R :=
  flatten [seq pmap id
             [seq cell.2 | cell <- zip (df_columns df) row
                         & component_eqb c cell.1.1]
          | row <- df_cells df].

(** Mean and sample covariance of projected members (one row per member):
    [pc.mean('time')] and, before it is squeezed, [np.cov(pc.T)]. *)
Definition pc_mean (n : nat) (pc : seq 'rV[R]_n) : 'rV[R]_n :=
  (INR (size pc))^-1 *: \sum_(r <- pc) r.

Definition cov_matrix (n : nat) (pc : seq 'rV[R]_n) : 'M[R]_n :=
  (INR (size pc).-1)^-1
  *: \sum_(r <- pc) ((r - pc_mean pc)^T *m (r - pc_mean pc)).

(** What [np.cov] returns: it squeezes its result, so that the covariance
    of a single variable is a 0-d array, not a matrix of one entry. *)
Inductive cov_array (n : nat) : Type :=
| Cov0d (variance : R)
| Cov2d (sigma : 'M[R]_n).
Arguments Cov0d {n} variance.
Arguments Cov2d {n} sigma.

Definition np_cov (n : nat) (pc : seq 'rV[R]_n) : cov_array n :=
  if n == 1%N then Cov0d (\tr (cov_matrix pc)) else Cov2d (cov_matrix pc).

(** ** The world of a run: random source and calls to the collaborators *)

Section Program.

(** State of numpy's process-wide random source, and the fitted EOF solver
    of [eofs.xarray]. *)
Variable rng_state : Type.
Variable solver : Type.

(** [climpred.prediction._pseudo_ens]: one resampling round, drawn with the
    random source. *)
Variable _pseudo_ens :
  DataArray -> ControlSeries -> rng_state -> result DataArray * rng_state.

(** [Eof(field, weights=wgts)] on the control distribution stacked over
    (member, initialization), and [solver.projectField(field, neofs=neofs,
    eofscaling=0, weighted=False)], one row of coordinates per member. *)
Variable Eof : DataArray -> option (seq R) -> result solver.
Variable projectField :
  solver -> seq grid -> forall neofs : nat, result (seq 'rV[R]_neofs).

Variable lstsq : forall n : nat, 'M[R]_n -> 'rV[R]_n -> result (lstsq_out n).

(** [da.mean('time')] and [a - b] of xarray, and [np.quantile]. *)
Variable xr_mean_time : DataArray -> DataArray.
Variable xr_sub : DataArray -> DataArray -> DataArray.
Variable np_quantile : seq R -> R -> R.

(** The calls a run makes, in order. *)
Inductive event : Type :=
| PseudoEnsCall (reference : DataArray) (control : ControlSeries)
    (out : result DataArray)
| EngineCall (initialized control_uninitialized : DataArray)
    (anomaly_data : bool) (neofs : nat) (curv : bool) (ntime : Z)
| ProjectCall (field : seq grid) (neofs : nat).

Record world : Type := mkWorld {
  rng : rng_state;
  trace : seq event
}.

Definition py (A : Type) : Type := world -> result A * world.

Definition ret (A : Type) (a : A) : py A := fun w => (Ok a, w).

Definition raise {A : Type} (e : exn) : py A := fun w => (Err e, w).

Definition bind (A B : Type) (m : py A) (k : A -> py B) : py B :=
  fun w =>
    match m w with
    | (Ok a, w') => k a w'
    | (Err e, w') => (Err e, w')
    end.

Definition of_result (A : Type) (r : result A) : py A := fun w => (r, w).

Definition log (e : event) : py unit :=
  fun w => (Ok tt, mkWorld (rng w) (rcons (trace w) e)).

Notation "'let*' x ':=' m 'in' k" := (bind m (fun x => k))
  (at level 200, x pattern, m at level 100, k at level 200,
   right associativity).

(** A [for] loop that updates an accumulator. *)
Fixpoint foldM (A B : Type) (f : B -> A -> py B) (b : B) (s : seq A)
  : py B :=
  match s with
  | [::] => ret b
  | a :: s' => let* b' := f b a in foldM f b' s'
  end.

(** The call [_pseudo_ens(reference, control)]. *)
Definition call_pseudo_ens (reference : DataArray) (control : ControlSeries)
  : py DataArray :=
  fun w =>
    let (out, g) := _pseudo_ens reference control (rng w) in
    (out, mkWorld g (rcons (trace w) (PseudoEnsCall reference control out))).

(** ** Names the functions read from the module namespace

    Three names are read that no function binds as a parameter or local:
    [control] (line 196), [detrend_by_control_time_mean] (line 109) and [ens]
    (lines 156-158).  Python resolves them in the module's globals when the
    line runs, and raises [NameError] when they are unbound. *)
Record globals : Type := mkGlobals {
  g_control : option ControlSeries;
  g_detrend_by_control_time_mean : option bool;
  g_ens : option Z
}.

(** The file binds none of the three. *)
Definition module_globals : globals := mkGlobals None None None.

Definition global_name (A : Type) (binding : option A) : py A :=
  if binding is Some v then ret v else raise NameError.

(** ** [_gen_control_distribution] (lines 49-74)

    Lines 72-73 are one assignment, broken after its [=]. *)

Definition _gen_control_distribution (ds : DataArray)
    (control : ControlSeries) (it : option Z) : py DataArray :=
  let it := odflt 10%Z it in
  let* ds_list :=
    foldM (fun ds_list _ =>
      let* control_uninitialized := call_pseudo_ens ds control in
      let* control_uninitialized :=
        of_result (set_initialization control_uninitialized
                     (initialization ds)) in
      ret (rcons ds_list control_uninitialized))
    [::] (py_range it) in
  let* control_uninitialized := of_result (xr_concat_member ds_list) in
  of_result (set_member control_uninitialized
               (np_arange (member_size control_uninitialized))).

(** ** [compute_relative_entropy] (lines 77-159)

    The stacking of [control_uninitialized] over (member, initialization)
    and its renaming (lines 129-130) prepare the argument of [Eof] and are
    part of that call. *)

Definition deg2rad (x : R) : R := (x * (PI / 180))%Re.

(** Lines 108-114.  The guard of line 109 has no suite of its own: the two
    assignments stand at its own indentation, so evaluating its condition is
    all it does. *)
Definition anomalies (G : globals)
    (initialized control_uninitialized : DataArray) (anomaly_data : bool)
  : py (DataArray * DataArray) :=
  if ~~ anomaly_data then
    let* _ := global_name (g_detrend_by_control_time_mean G) in
    let anom_x := xr_sub initialized (xr_mean_time control_uninitialized) in
    let anom_b :=
      xr_sub control_uninitialized (xr_mean_time control_uninitialized) in
    ret (anom_x, anom_b)
  else
    let anom_x := initialized in
    let anom_b := control_uninitialized in
    ret (anom_x, anom_b).

(** Lines 136-141 and 145-150: project one slice, estimate its Gaussian. *)
Definition project_slice (slv : solver) (anom : DataArray) (init t : Z)
    (neofs : nat) : py ('rV[R]_neofs * cov_array neofs) :=
  let* field := of_result (sel anom init t) in
  let* _ := log (ProjectCall field neofs) in
  let* pc := of_result (projectField slv field neofs) in
  ret (pc_mean pc, np_cov pc).

(** [np.matmul(a, b)] where [a] is an [xr.DataArray]: numpy hands the call
    to xarray's [__array_ufunc__], which takes no generalized ufunc. *)
Definition xr_matmul (n : nat) (a b : 'rV[R]_n) : result R :=
  Err NotImplementedError.

(** [_relative_entropy_formula] (lines 36-46) on what lines 154-155 pass:
    [xr.DataArray] wrappers of the squeezed covariances and of the means.
    [np.linalg.det] raises on a 0-d array; the quotients, the trace and
    [np.linalg.lstsq] take the wrappers as arrays; [np.matmul] does not. *)
Definition _relative_entropy_formula_xr (n : nat)
    (sigma_b sigma_x : cov_array n) (mu_x mu_b : 'rV[R]_n) (neofs : nat)
  : result (R * R * R) :=
  match sigma_b, sigma_x with
  | Cov2d b, Cov2d x =>
    let fac := (1 / 2)%Re in
    let dispersion :=
      fac * (ln (\det b / \det x)%R + \tr (np_divide x b) - INR neofs) in
    rbind (lstsq b (mu_x - mu_b)) (fun '(z, resid, rank, s) =>
    rbind (xr_matmul (mu_x - mu_b) z) (fun m =>
    let signal := fac * m in
    let R := dispersion + signal in
    Ok (R, dispersion, signal)))
  | _, _ => Err LinAlgError
  end.

(** Lines 135-158: the body of the two loops. *)
Definition engine_step (G : globals) (slv : solver)
    (anom_x anom_b : DataArray) (neofs : nat) (init : Z)
    (rel_ent : DataFrame) (t : Z) : py DataFrame :=
  let* (mu_b, sigma_b) := project_slice slv anom_b init t neofs in
  let* (mu_x, sigma_x) := project_slice slv anom_x init t neofs in
  let* (r, d, s) :=
    of_result
      (_relative_entropy_formula_xr sigma_b sigma_x mu_x mu_b neofs) in
  let* ens := global_name (g_ens G) in
  let* rel_ent := of_result (df_setitem rel_ent comp_R ens t r) in
  let* ens := global_name (g_ens G) in
  let* rel_ent := of_result (df_setitem rel_ent comp_D ens t d) in
  let* ens := global_name (g_ens G) in
  of_result (df_setitem rel_ent comp_S ens t s).

Definition compute_relative_entropy (G : globals)
    (initialized control_uninitialized : DataArray)
    (anomaly_data : option bool) (neofs : option nat) (curv : option bool)
    (ntime : option Z) : py DataFrame :=
  let anomaly_data := odflt false anomaly_data in
  let curv := odflt true curv in
  let neofs := if neofs is Some n then n else member_size initialized in
  let ntime :=
    if ntime is Some k then k else Z.of_nat (time_size initialized) in
  let* _ := log (EngineCall initialized control_uninitialized anomaly_data
                   neofs curv ntime) in
  let* (anom_x, anom_b) :=
    anomalies G initialized control_uninitialized anomaly_data in
  let initializations := initialization initialized in
  let length := time_size initialized in
  let mindex := from_product [:: comp_R; comp_S; comp_D] initializations in
  let tt := np_arange2 1 length in
  let rel_ent := empty_frame tt mindex in
  let rel_ent :=
    mkDataFrame (df_index rel_ent) (Some "Lead Year"%string)
      (df_columns rel_ent) (df_cells rel_ent) in
  let wgts :=
    if curv then None
    else Some [seq sqrt (cos (deg2rad l)) | l <- lat anom_x] in
  let* slv := of_result (Eof control_uninitialized wgts) in
  foldM (fun rel_ent init =>
    foldM (engine_step G slv anom_x anom_b neofs init) rel_ent
      (py_take ntime (time initialized)))
    rel_ent initializations.

(** ** [bootstrap_relative_entropy] (lines 162-206) *)

(** Lines 196-202: one pass through the loop. *)
Definition bootstrap_round (G : globals)
    (initialized control_uninitialized : DataArray) (neofs : nat)
    (curv : bool) (ntime : Z) (x : seq DataFrame) : py (seq DataFrame) :=
  let* control := global_name (g_control G) in
  let* ds_control := call_pseudo_ens initialized control in
  let* ds_control :=
    of_result (set_initialization ds_control (initialization initialized)) in
  let* ds_control :=
    of_result (set_member ds_control (np_arange (member_size ds_control))) in
  let* ds_pseudo_rel_ent :=
    compute_relative_entropy G ds_control control_uninitialized
      None (Some neofs) (Some curv) (Some ntime) in
  ret (rcons x ds_pseudo_rel_ent).

(** The value returned is [None] for the empty frame, and the quantile of
    every component otherwise (line 205). *)
Definition bootstrap_relative_entropy (G : globals)
    (initialized control_uninitialized : DataArray)
    (sig : option R) (bootstrap : option Z) (curv : option bool)
    (neofs : option nat) (ntime : option Z)
  : py (option (component -> R)) :=
  let sig := odflt 95%Re sig in
  let bootstrap := odflt 100%Z bootstrap in
  let curv := odflt true curv in
  let neofs := if neofs is Some n then n else member_size initialized in
  let ntime :=
    if ntime is Some k then k else Z.of_nat (time_size initialized) in
  let* q :=
    of_result (py_int_div bootstrap (Z.of_nat (time_size initialized))) in
  let* x :=
    foldM (fun x _ =>
             bootstrap_round G initialized control_uninitialized neofs curv
               ntime x)
      [::] (py_range (Z.min 1 q)) in
  let* ds_pseudo_metric := of_result (pd_concat x) in
  let qsig := (sig / 100)%Re in
  ret (if all_missing ds_pseudo_metric then None
       else Some (fun c => np_quantile (pooled ds_pseudo_metric c) qsig)).

End Program.

(** ** Concrete inputs and collaborators

    Small covariance matrices, and one implementation of each collaborator
    contract, on which the statements below are instantiated. *)

Definition mx22 (a b c d : R) : 'M[R]_2 :=
  \matrix_(i, j) (if i == 0 then (if j == 0 then a else b)
                  else (if j == 0 then c else d)).

Definition sigma_2112 : 'M[R]_2 := mx22 2 1 1 2.
Definition sigma_1001 : 'M[R]_2 := mx22 1 0 0 1.
Definition sigma_2002 : 'M[R]_2 := mx22 2 0 0 2.

(** An exact solver: for an invertible [a] it returns the solution of
    [a x = b], with the rank of [a].  The residuals of a square system are
    empty; the singular values, which no caller reads, are left out. *)
Definition exact_lstsq (n : nat) (a : 'M[R]_n) (b : 'rV[R]_n)
  : result (lstsq_out n) :=
  Ok (b *m invmx a^T, [::], \rank a, [::]).

(** A deterministic generator over a counter: every (member,
    initialization) pair takes the next window of the control run.  It stands
    for [_pseudo_ens] where a statement needs one that runs. *)
Definition window (control : ControlSeries) (start len : nat) : seq grid :=
  take len (drop start (cvalues control)).

Definition counter_pseudo_ens (reference : DataArray)
    (control : ControlSeries) (g : nat) : result DataArray * nat :=
  let len := size (time reference) in
  let total := size (ctime control) in
  let ni := size (initialization reference) in
  let nm := member_size reference in
  if (len <= total)%N then
    let start := fun k : nat => ((g + k) %% (total - len).+1)%N in
    (Ok (mkDataArray (np_arange ni) (np_arange nm) (time reference)
           (lat reference)
           [seq [seq window control (start (m * ni + i)%N) len
                | i <- iota 0 ni] | m <- iota 0 nm]),
     (g + nm * ni)%N)
  else (Err (PyExc "InsufficientControlLengthError"), g).

(** A solver that keeps nothing, and a projection on the first [neofs] grid
    points. *)
Definition unit_Eof (_ : DataArray) (_ : option (seq R)) : result unit :=
  Ok tt.

Definition coordinate_projectField (_ : unit) (field : seq grid)
    (neofs : nat) : result (seq 'rV[R]_neofs) :=
  Ok [seq \row_(j < neofs) nth 0 g j | g <- field].

(** Time mean and difference of arrays whose labels agree, by position. *)
Definition grid_add (g1 g2 : grid) : grid :=
  [seq p.1 + p.2 | p <- zip g1 g2].

Definition grid_scale (c : R) (g : grid) : grid := [seq c * x | x <- g].

Definition grid_mean (gs : seq grid) : grid :=
  if gs is g :: gs' then
    grid_scale (INR (size gs))^-1 (foldl grid_add g gs')
  else [::].

Definition positional_mean_time (da : DataArray) : DataArray :=
  mkDataArray (initialization da) (member da) [::] (lat da)
    [seq [seq [:: grid_mean row] | row <- b] | b <- blocks da].

Definition positional_sub (a b : DataArray) : DataArray :=
  mkDataArray (initialization a) (member a) (time a) (lat a)
    [seq [seq [seq grid_add g (grid_scale (-1) (head [::] rows.2))
              | g <- rows.1]
         | rows <- zip bb.1 bb.2]
    | bb <- zip (blocks a) (blocks b)].

(** A small ensemble and control run: two initializations, two members,
    two lead times, one grid point. *)
Definition small_ensemble : DataArray :=
  mkDataArray [:: 1990%Z; 1991%Z] [:: 0%Z; 1%Z] [:: 1%Z; 2%Z] [:: 0]
    [:: [:: [:: [:: 1]; [:: 2]]; [:: [:: 3]; [:: 4]]];
        [:: [:: [:: 2]; [:: 1]]; [:: [:: 4]; [:: 3]]]].

Definition small_control : ControlSeries :=
  mkControlSeries [:: 1%Z; 2%Z; 3%Z] [:: [:: 1]; [:: 2]; [:: 3]].

(** The two rounds the counter generator returns first for them. *)
Definition first_round : DataArray :=
  mkDataArray [:: 0%Z; 1%Z] [:: 0%Z; 1%Z] [:: 1%Z; 2%Z] [:: 0]
    [:: [:: [:: [:: 1]; [:: 2]]; [:: [:: 2]; [:: 3]]];
        [:: [:: [:: 1]; [:: 2]]; [:: [:: 2]; [:: 3]]]].


(** ** Reading the trace *)

Section Trace.

Variable rng_state : Type.

Definition is_pseudo_ens_call (e : event) : bool :=
  if e is PseudoEnsCall _ _ _ then true else false.

Definition is_engine_call (e : event) : bool :=
  if e is EngineCall _ _ _ _ _ _ then true else false.

Definition is_project_call (e : event) : bool :=
  if e is ProjectCall _ _ then true else false.

(** An event that is not an engine call made with [anomaly_data] true. *)
Definition raw_engine_call (e : event) : bool :=
  if e is EngineCall _ _ anomaly_data _ _ _ then ~~ anomaly_data else true.

(** [m] only appends events to the trace, and what it appends satisfies
    [Q]. *)
Definition emits (A : Type) (m : py rng_state A) (Q : seq event -> Prop)
  : Prop :=
  forall w, exists2 evs, trace (m w).2 = trace w ++ evs & Q evs.

Definition cat_closed (Q : seq event -> Prop) : Prop :=
  Q [::] /\ forall e1 e2, Q e1 -> Q e2 -> Q (e1 ++ e2).

(** Rounds begun and engine runs among the events of a piece of the
    bootstrap: no engine run without its round, at most [n] rounds. *)
Definition rounds_within (n : nat) (evs : seq event) : Prop :=
  (count is_engine_call evs <= count is_pseudo_ens_call evs <= n)%N.

(** At most [n] rounds, and no engine call made with [anomaly_data] true. *)
Definition round_events (n : nat) (evs : seq event) : Prop :=
  rounds_within n evs /\ all raw_engine_call evs.

(** Events after the generator call of a round: at most the engine's. *)
Definition round_tail (evs : seq event) : Prop :=
  [/\ (count is_engine_call evs <= 1)%N, count is_pseudo_ens_call evs = 0%N
     & all raw_engine_call evs].

End Trace.





(** The number of rounds as the specification gives it:
    [max(1, floor(bootstrap / initialized.time.size))]. *)
Definition spec_rounds (bootstrap time_size : Z) : Z :=
  Z.max 1 (bootstrap / time_size).
(** ** Further inputs and readings of a table *)

(** A table with the row labels [tt], the index name of line 123, the
    columns [mindex], and one cell per row and column. *)
Definition frame_of (tt : seq Z) (mindex : seq (component * Z))
    (df : DataFrame) : Prop :=
  [/\ df_index df = tt, df_index_name df = Some "Lead Year"%string,
      df_columns df = mindex, size (df_cells df) = size tt
    & all (fun row => size row == size mindex) (df_cells df)].

(** A projection that asks for [n] EOFs, or another event. *)
Definition projects_on (n : nat) (e : event) : bool :=
  if e is ProjectCall _ k then k == n else true.

(** An ensemble whose initialization labels are not those of
    [small_ensemble], an ensemble without lead times, and a control run too
    short for any window. *)
Definition other_ensemble : DataArray :=
  mkDataArray [:: 2000%Z; 2001%Z] (member small_ensemble)
    (time small_ensemble) (lat small_ensemble) (blocks small_ensemble).

Definition timeless_ensemble : DataArray :=
  mkDataArray [:: 1990%Z; 1991%Z] [:: 0%Z; 1%Z] [::] [:: 0]
    [:: [:: [::]; [::]]; [:: [::]; [::]]].

Definition empty_control : ControlSeries := mkControlSeries [::] [::].

(** A generator that returns a fixed ensemble, an [Eof] that fails, and a
    stand-in for [np.quantile] that takes the first element. *)
Definition fixed_pseudo_ens (out : DataArray) (_ : DataArray)
    (_ : ControlSeries) (g : nat) : result DataArray * nat :=
  (Ok out, g).

Definition failing_Eof (_ : DataArray) (_ : option (seq R)) : result unit :=
  Err ValueError.

Definition head_quantile (xs : seq R) (_ : R) : R := head 0 xs.

(** Globals with every free name bound. *)
Definition all_bound : globals :=
  mkGlobals (Some small_control) (Some true) (Some 1990%Z).

(** Globals with [control] bound only. *)
Definition control_bound : globals :=
  mkGlobals (Some small_control) None None.

(** An ensemble with one initialization only. *)
Definition one_initialization : DataArray :=
  mkDataArray [:: 1990%Z] [:: 0%Z; 1%Z] [:: 1%Z; 2%Z] [:: 0]
    [:: [:: [:: [:: 1]; [:: 2]]]; [:: [:: [:: 2]; [:: 1]]]].

(** A baseline with the labels of [small_ensemble] and other values. *)
Definition small_baseline : DataArray :=
  mkDataArray [:: 1990%Z; 1991%Z] [:: 0%Z; 1%Z] [:: 1%Z; 2%Z] [:: 0]
    [:: [:: [:: [:: 5]; [:: 6]]; [:: [:: 7]; [:: 8]]];
        [:: [:: [:: 6]; [:: 5]]; [:: [:: 8]; [:: 7]]]].

(** * Properties *)

(** ** Real arithmetic behind the ring notations *)

Ltac to_real :=
  rewrite /GRing.add /GRing.mul /GRing.opp /GRing.inv /GRing.one /GRing.zero /=;
  try match goal with |- @eq _ ?a ?b => change (@eq R a b) end.

Lemma natr_INR (k : nat) : (k%:R : R) = INR k.
Proof.
elim: k => [|k IH]; first by [].
by rewrite -[k.+1]addn1 natrD IH addn1 S_INR.
Qed.

(** ** Two-by-two matrices *)

Lemma ord2_lift : lift ord0 (0 : 'I_1) = (1 : 'I_2).
Proof. exact: val_inj. Qed.

Lemma det_2x2 (A : 'M[R]_2) : \det A = A 0 0 * A 1 1 - A 0 1 * A 1 0.
Proof.
rewrite (expand_det_row A 0) !big_ord_recl big_ord0 /cofactor !det_mx11 !mxE /=.
have -> : lift (0 : 'I_2) (0 : 'I_1) = 1 by apply/val_inj.
have -> : lift (1 : 'I_2) (0 : 'I_1) = 0 by apply/val_inj.
rewrite /bump /= !add0n addn0 expr0 expr1 mul1r addr0 mulN1r mulrN.
by congr (A _ _ * A _ _ - A _ _ * A _ _); apply/val_inj.
Qed.

Lemma tr_2x2 (A : 'M[R]_2) : \tr A = A 0 0 + A 1 1.
Proof. by rewrite /mxtrace !big_ord_recl big_ord0 addr0 ord2_lift. Qed.

Lemma mx22E a b c d :
  [/\ mx22 a b c d 0 0 = a, mx22 a b c d 0 1 = b,
      mx22 a b c d 1 0 = c & mx22 a b c d 1 1 = d].
Proof. by split; rewrite mxE. Qed.

Lemma mulmx22 a b c d a' b' c' d' :
  mx22 a b c d *m mx22 a' b' c' d'
  = mx22 (a * a' + b * c') (a * b' + b * d')
         (c * a' + d * c') (c * b' + d * d').
Proof.
apply/matrixP => i j; rewrite !mxE !big_ord_recl big_ord0 !mxE /= addr0.
by case: i => [[|[|i]] hi] //=; case: j => [[|[|j]] hj].
Qed.

Lemma mx22_1 : mx22 1 0 0 1 = 1%:M.
Proof.
apply/matrixP => i j; rewrite !mxE.
by case: i => [[|[|i]] hi] //=; case: j => [[|[|j]] hj].
Qed.

Lemma eq_mx22 a b c d a' b' c' d' :
  a = a' -> b = b' -> c = c' -> d = d' -> mx22 a b c d = mx22 a' b' c' d'.
Proof. by move=> -> -> -> ->. Qed.

Lemma invmx_uniq n (A B : 'M[R]_n) : B *m A = 1%:M -> invmx A = B.
Proof.
move=> BA; have [_ uA] := mulmx1_unit BA.
by rewrite -[LHS]mul1mx -BA -mulmxA mulmxV // mulmx1.
Qed.

Lemma quadform_2x2 (A : 'M[R]_2) (v : 'rV[R]_2) :
  quadform A v
  = (v 0 0 * A 0 0 + v 0 1 * A 1 0) * v 0 0
    + (v 0 0 * A 0 1 + v 0 1 * A 1 1) * v 0 1.
Proof.
rewrite /quadform !mxE !big_ord_recl big_ord0 !mxE !big_ord_recl big_ord0.
by rewrite ?mxE ?big_ord0 !addr0 ord2_lift.
Qed.

Lemma rV2_neq0 (v : 'rV[R]_2) : v != 0 -> v 0 0 <> 0 \/ v 0 1 <> 0.
Proof.
move=> v0; case: (Req_EM_T (v 0 0) 0) => [x0|]; last by left.
case: (Req_EM_T (v 0 1) 0) => [y0|]; last by right.
case/eqP: v0; apply/matrixP => i j; rewrite mxE ord1.
by case: j => [[|[|j]] hj] //; [rewrite -[RHS]x0 | rewrite -[RHS]y0];
   congr (v _ _); apply/val_inj.
Qed.

Lemma spd_mx22 (a b d : R) :
  Rlt 0 a -> Rlt 0 (a * d - b * b) -> spd (mx22 a b b d).
Proof.
move=> a0 D0; split.
  rewrite /symmetric; apply/matrixP => i j; rewrite !mxE.
  by case: i => [[|[|i]] hi] //=; case: j => [[|[|j]] hj].
move=> v /rV2_neq0 v0; rewrite quadform_2x2.
have [-> -> -> ->] := mx22E a b b d.
move: v0 D0; set x := v 0 0; set y := v 0 1 => v0; to_real => D0.
have E : (a * (((x * a + y * b) * x) + ((x * b + y * d) * y))
          = (a * x + b * y) * (a * x + b * y) + (a * d - b * b) * (y * y))%Re.
  by ring.
case: (Req_EM_T y 0) => [y0|y0].
  have x0 : x <> 0%Re by case: v0.
  rewrite y0; have := Rmult_lt_0_compat _ _ a0 (Rsqr_pos_lt x x0).
  by rewrite /Rsqr; nra.
have := Rmult_lt_0_compat _ _ D0 (Rsqr_pos_lt y y0); rewrite /Rsqr => P.
have := Rle_0_sqr (a * x + b * y); rewrite /Rsqr => Q.
nra.
Qed.
(** ** Positive-definite matrices *)

Lemma posdef_det_neq0 n (A : 'M[R]_n) : posdef A -> \det A != 0.
Proof.
move=> pd; apply/negP => /det0P [v v0 vA].
by have := pd v v0; rewrite /quadform vA mul0mx mxE; exact: Rlt_irrefl.
Qed.

Lemma posdef_unitmx n (A : 'M[R]_n) : posdef A -> A \in unitmx.
Proof. by move=> pd; rewrite unitmxE unitfE posdef_det_neq0. Qed.

Lemma quadform_delta n (A : 'M[R]_n) (i : 'I_n) :
  quadform A (delta_mx 0 i) = A i i.
Proof. by rewrite /quadform -rowE trmx_delta -colE !mxE. Qed.

Lemma posdef_diag n (A : 'M[R]_n) (i : 'I_n) : posdef A -> Rlt 0 (A i i).
Proof.
move=> pd; rewrite -quadform_delta; apply: pd.
apply/eqP => /matrixP /(_ 0 i); rewrite !mxE !eqxx /=.
by move/eqP; rewrite oner_eq0.
Qed.

(** ** The entry-wise quotient and the inner product *)

Lemma trace_np_divide n (A B : 'M[R]_n) :
  \tr (np_divide A B) = \sum_(i < n) A i i / B i i.
Proof. by rewrite /mxtrace; apply: eq_bigr => i _; rewrite mxE. Qed.

Lemma trace_np_divide_self n (A : 'M[R]_n) :
  posdef A -> \tr (np_divide A A) = INR n.
Proof.
move=> pd; rewrite trace_np_divide -natr_INR.
rewrite (eq_bigr (fun=> 1)) ?sumr_const ?card_ord // => i _.
rewrite divff //; apply/eqP => Aii.
by have := posdef_diag i pd; rewrite Aii; exact: Rlt_irrefl.
Qed.

Lemma np_matmul1_0l n (v : 'rV[R]_n) : np_matmul1 0 v = 0.
Proof. by rewrite /np_matmul1 big1 // => i _; rewrite mxE mul0r. Qed.

Lemma np_matmul1E n (u v : 'rV[R]_n) : np_matmul1 u v = (u *m v^T) 0 0.
Proof. by rewrite mxE; apply: eq_bigr => i _; rewrite mxE. Qed.

(** ** The formula returns what [lstsq] lets it return *)

Section FormulaFacts.

Variable lstsq : forall n : nat, 'M[R]_n -> 'rV[R]_n -> result (lstsq_out n).

Lemma formula_Ok n (sigma_b sigma_x : 'M[R]_n) mu_x mu_b neofs x resid rank s :
  lstsq sigma_b (mu_x - mu_b) = Ok (x, resid, rank, s) ->
  let D := (1 / 2)%Re * (ln (\det sigma_b / \det sigma_x)%R
                         + \tr (np_divide sigma_x sigma_b) - INR neofs) in
  let S := (1 / 2)%Re * np_matmul1 (mu_x - mu_b) x in
  _relative_entropy_formula lstsq sigma_b sigma_x mu_x mu_b neofs
  = Ok (D + S, D, S).
Proof. by rewrite /_relative_entropy_formula => ->. Qed.

Lemma formula_inv n (sigma_b sigma_x : 'M[R]_n) mu_x mu_b neofs r d s :
  _relative_entropy_formula lstsq sigma_b sigma_x mu_x mu_b neofs
  = Ok (r, d, s) ->
  exists x resid rank sv,
    [/\ lstsq sigma_b (mu_x - mu_b) = Ok (x, resid, rank, sv),
        d = (1 / 2)%Re * (ln (\det sigma_b / \det sigma_x)%R
                          + \tr (np_divide sigma_x sigma_b) - INR neofs),
        s = (1 / 2)%Re * np_matmul1 (mu_x - mu_b) x
      & r = d + s].
Proof.
rewrite /_relative_entropy_formula.
case: (lstsq _ _) => [[[[x resid] rank] sv]|e] //= [<- <- <-].
by exists x, resid, rank, sv.
Qed.

Lemma formula_Err n (sigma_b sigma_x : 'M[R]_n) mu_x mu_b neofs e :
  _relative_entropy_formula lstsq sigma_b sigma_x mu_x mu_b neofs = Err e ->
  lstsq sigma_b (mu_x - mu_b) = Err e.
Proof.
rewrite /_relative_entropy_formula.
by case: (lstsq _ _) => [[[[x resid] rank] sv]|e'] //= [->].
Qed.

End FormulaFacts.

Lemma exact_lstsq_solves n (A : 'M[R]_n) (b : 'rV[R]_n) :
  A \in unitmx ->
  exists x resid rank s,
    exact_lstsq A b = Ok (x, resid, rank, s) /\ A *m x^T = b^T.
Proof.
move=> uA; exists (b *m invmx A^T), [::], (\rank A), [::]; split=> //.
by rewrite trmx_mul trmx_inv trmxK mulKVmx.
Qed.
(** ** The concrete covariance matrices *)

Lemma spd_sigma_2112 : spd sigma_2112.
Proof. by apply: spd_mx22; to_real; lra. Qed.

Lemma spd_sigma_1001 : spd sigma_1001.
Proof. by apply: spd_mx22; to_real; lra. Qed.

Lemma spd_sigma_2002 : spd sigma_2002.
Proof. by apply: spd_mx22; to_real; lra. Qed.

Lemma det_mx22 a b c d : \det (mx22 a b c d) = a * d - b * c.
Proof. by rewrite det_2x2; have [-> -> -> ->] := mx22E a b c d. Qed.

Lemma trace_np_divide_mx22 a b c d a' b' c' d' :
  \tr (np_divide (mx22 a b c d) (mx22 a' b' c' d')) = a / a' + d / d'.
Proof. by rewrite tr_2x2 !mxE. Qed.

Lemma invmx_sigma_2112 :
  invmx sigma_2112 = mx22 (2 / 3)%Re (- (1 / 3))%Re (- (1 / 3))%Re (2 / 3)%Re.
Proof.
apply: invmx_uniq; rewrite /sigma_2112 mulmx22 -mx22_1.
by apply: eq_mx22; to_real; field.
Qed.


(** ** Claims on the formula *)

Section FormulaClaims.

Variable lstsq : forall n : nat, 'M[R]_n -> 'rV[R]_n -> result (lstsq_out n).

(** numpy's contract for a square matrix of full rank: the call returns,
    and what it returns solves the system. *)
Hypothesis lstsq_full_rank :
  forall (n : nat) (a : 'M[R]_n) (b : 'rV[R]_n),
    a \in unitmx ->
    exists x resid rank s,
      lstsq a b = Ok (x, resid, rank, s) /\ a *m x^T = b^T.

(** C2. For a symmetric positive-definite [sigma_b] the least-squares call
    returns a solution [x] of [sigma_b x = mu_x - mu_b]; the signal is half
    the inner product of [mu_x - mu_b] with [x], which is the quadratic form
    of the inverse of [sigma_b]; the first component returned is dispersion
    plus signal. *)
Theorem signal_is_lstsq_quadratic_form (n : nat)
    (sigma_b sigma_x : 'M[R]_n) (mu_x mu_b : 'rV[R]_n) :
  spd sigma_b ->
  exists x resid rank s dispersion signal,
    [/\ lstsq sigma_b (mu_x - mu_b) = Ok (x, resid, rank, s),
        sigma_b *m x^T = (mu_x - mu_b)^T,
        signal = (1 / 2)%Re * np_matmul1 (mu_x - mu_b) x,
        signal = spec_signal sigma_b mu_x mu_b
      & _relative_entropy_formula lstsq sigma_b sigma_x mu_x mu_b n
        = Ok (dispersion + signal, dispersion, signal)].
Proof.
case=> _ pd; have uB := posdef_unitmx pd.
have [x [resid [rank [s [Hx Hsol]]]]] := lstsq_full_rank (mu_x - mu_b) uB.
exists x, resid, rank, s; do 2!eexists.
split; [exact: Hx | exact: Hsol | by [] | | ].
  by rewrite /spec_signal np_matmul1E -mulmxA -Hsol mulKmx.
exact: formula_Ok Hx.
Qed.

(** C3. Identical distributions: with [sigma_b = sigma_x] symmetric
    positive-definite and [mu_b = mu_x] the formula returns [(0, 0, 0)]. *)
Theorem identical_distributions_zero (n : nat) (sigma : 'M[R]_n)
    (mu : 'rV[R]_n) :
  spd sigma ->
  _relative_entropy_formula lstsq sigma sigma mu mu n = Ok (0, 0, 0).
Proof.
case=> _ pd.
have [x [resid [rank [s [Hx _]]]]] :=
  lstsq_full_rank (mu - mu) (posdef_unitmx pd).
rewrite (formula_Ok _ _ Hx) subrr np_matmul1_0l mulr0 addr0.
rewrite divff ?posdef_det_neq0 // trace_np_divide_self //.
have -> : ln 1 = 0 by exact: ln_1.
by rewrite add0r subrr mulr0.
Qed.

(** X1. The signal is a quadratic form of [sigma_b] and cannot be negative. *)
Lemma signal_nonnegative (n : nat) (sigma_b sigma_x : 'M[R]_n)
    (mu_x mu_b : 'rV[R]_n) (r d s : R) :
  spd sigma_b ->
  _relative_entropy_formula lstsq sigma_b sigma_x mu_x mu_b n = Ok (r, d, s) ->
  Rle 0 s.
Proof.
case=> sym pd /formula_inv [x [resid [rank [sv [Hx _ -> _]]]]].
have [x' [? [? [? [Hx' Hsol]]]]] :=
  lstsq_full_rank (mu_x - mu_b) (posdef_unitmx pd).
move: Hx'; rewrite Hx => -[xx' _ _ _]; rewrite -{}xx' in Hsol.
have -> : np_matmul1 (mu_x - mu_b) x = quadform sigma_b x.
  rewrite np_matmul1E /quadform; congr ((_ *m _) 0 0).
  by rewrite -[mu_x - mu_b]trmxK -Hsol trmx_mul trmxK sym.
have : Rle 0 (quadform sigma_b x).
  case: (eqVneq x 0) => [->|/pd/Rlt_le //].
  by rewrite /quadform !mul0mx mxE; exact: Rle_refl.
by to_real; lra.
Qed.
End FormulaClaims.

Lemma signal_is_lstsq_quadratic_form_witness :
  spd sigma_2112 /\
  exists x resid rank s dispersion signal,
    [/\ exact_lstsq sigma_2112 (0 - 0) = Ok (x, resid, rank, s),
        sigma_2112 *m x^T = ((0 : 'rV[R]_2) - 0)^T,
        signal = (1 / 2)%Re * np_matmul1 (0 - 0) x,
        signal = spec_signal sigma_2112 0 0
      & _relative_entropy_formula exact_lstsq sigma_2112 sigma_1001 0 0 2
        = Ok (dispersion + signal, dispersion, signal)].
Proof.
split; first exact: spd_sigma_2112.
exact: (signal_is_lstsq_quadratic_form exact_lstsq_solves sigma_1001 0 0
          spd_sigma_2112).
Defined.

Lemma identical_distributions_zero_witness :
  spd sigma_2112 /\
  _relative_entropy_formula exact_lstsq sigma_2112 sigma_2112 0 0 2
  = Ok (0, 0, 0).
Proof.
split; first exact: spd_sigma_2112.
exact: (identical_distributions_zero exact_lstsq_solves 0 spd_sigma_2112).
Defined.
(** C1. On the symmetric positive-definite pair
    [sigma_b = [[2, 1], [1, 2]]], [sigma_x = [[1, 0], [0, 1]]] the dispersion
    the formula returns is [(ln 3 - 1) / 2]: line 38 divides [sigma_x] by
    [sigma_b] entry by entry.  The specification's
    [0.5 * (ln (det sigma_b / det sigma_x) + trace (sigma_x sigma_b^-1)
    - neofs)]
    is [(ln 3 - 2 / 3) / 2] there. *)
Theorem dispersion_divides_entrywise
    (lstsq : forall n : nat, 'M[R]_n -> 'rV[R]_n -> result (lstsq_out n))
    (mu_x mu_b : 'rV[R]_2) (r d s : R) :
  _relative_entropy_formula lstsq sigma_2112 sigma_1001 mu_x mu_b 2
  = Ok (r, d, s) ->
  [/\ spd sigma_2112, spd sigma_1001,
      d = ((ln 3 - 1) / 2)%Re,
      spec_dispersion sigma_2112 sigma_1001 = ((ln 3 - 2 / 3) / 2)%Re
    & d <> spec_dispersion sigma_2112 sigma_1001].
Proof.
move=> /formula_inv [x [resid [rank [sv [_ Hd _ _]]]]].
have Hdet : (\det sigma_2112 / \det sigma_1001)%R = 3%Re.
  by rewrite !det_mx22; to_real; field.
have Hspec : spec_dispersion sigma_2112 sigma_1001 = ((ln 3 - 2 / 3) / 2)%Re.
  rewrite /spec_dispersion Hdet invmx_sigma_2112 /sigma_1001 mulmx22 tr_2x2.
  have [-> _ _ ->] := mx22E (1 * (2 / 3)%Re + 0 * (- (1 / 3))%Re)
    (1 * (- (1 / 3))%Re + 0 * (2 / 3)%Re) (0 * (2 / 3)%Re + 1 * (- (1 / 3))%Re)
    (0 * (- (1 / 3))%Re + 1 * (2 / 3)%Re).
  by to_real; field.
have Hcode : d = ((ln 3 - 1) / 2)%Re.
  by rewrite Hd Hdet trace_np_divide_mx22; to_real; field.
split=> //; [exact: spd_sigma_2112 | exact: spd_sigma_1001 |].
by rewrite Hspec Hcode; lra.
Qed.

Lemma dispersion_divides_entrywise_witness :
  exists r d s,
    _relative_entropy_formula exact_lstsq sigma_2112 sigma_1001 0 0 2
    = Ok (r, d, s) /\
    [/\ spd sigma_2112, spd sigma_1001,
        d = ((ln 3 - 1) / 2)%Re,
        spec_dispersion sigma_2112 sigma_1001 = ((ln 3 - 2 / 3) / 2)%Re
      & d <> spec_dispersion sigma_2112 sigma_1001].
Proof.
do 3!eexists; split; first by reflexivity.
exact: (@dispersion_divides_entrywise exact_lstsq 0 0 _ _ _ (erefl _)).
Defined.

(** C4. On the symmetric positive-definite pair
    [sigma_b = [[2, 1], [1, 2]]], [sigma_x = [[2, 0], [0, 2]]] with equal
    means, the dispersion the formula returns is [ln (3 / 4) / 2], which is
    negative, the signal is zero, and so the total is negative too. *)
Theorem dispersion_negative_on_spd
    (lstsq : forall n : nat, 'M[R]_n -> 'rV[R]_n -> result (lstsq_out n))
    (mu : 'rV[R]_2) (r d s : R) :
  _relative_entropy_formula lstsq sigma_2112 sigma_2002 mu mu 2
  = Ok (r, d, s) ->
  spd sigma_2112 /\ spd sigma_2002 /\
  [/\ d = (ln (3 / 4) / 2)%Re, s = 0, Rlt d 0 & Rlt r 0].
Proof.
move=> /formula_inv [x [resid [rank [sv [_ Hd Hs Hr]]]]].
have Hdet : (\det sigma_2112 / \det sigma_2002)%R = (3 / 4)%Re.
  by rewrite !det_mx22; to_real; field.
have Hcode : d = (ln (3 / 4) / 2)%Re.
  by rewrite Hd Hdet trace_np_divide_mx22; to_real; field.
have Hsig : s = 0 by rewrite Hs subrr np_matmul1_0l mulr0.
have Hneg : Rlt d 0.
  have := ln_increasing (3 / 4)%Re 1 ltac:(lra) ltac:(lra).
  by rewrite ln_1 Hcode; lra.
split; [exact: spd_sigma_2112 | split; first exact: spd_sigma_2002].
by split=> //; rewrite Hr Hsig addr0.
Qed.

Lemma dispersion_negative_on_spd_witness :
  exists r d s,
    _relative_entropy_formula exact_lstsq sigma_2112 sigma_2002 0 0 2
    = Ok (r, d, s) /\
    (spd sigma_2112 /\ spd sigma_2002 /\
     [/\ d = (ln (3 / 4) / 2)%Re, s = 0, Rlt d 0 & Rlt r 0]).
Proof.
do 3!eexists; split; first by reflexivity.
exact: (@dispersion_negative_on_spd exact_lstsq 0 _ _ _ (erefl _)).
Defined.

(** ** The formula with special values *)

Lemma RltbP (x y : R) : reflect (Rlt x y) (Rltb x y).
Proof. by rewrite /Rltb; case: Rlt_dec => h; constructor. Qed.


Lemma np_trace_divide_finite n (a b : 'M[R]_n) :
  (forall i, b i i != 0) ->
  np_trace_divide a b = Fin (\tr (np_divide a b)).
Proof.
move=> b0; rewrite trace_np_divide /np_trace_divide.
apply: (big_rec2 (fun u v => u = Fin v)) => // i u v _ ->.
by rewrite /np_fdiv b0.
Qed.

(** Where the ratio of the determinants is positive and the diagonal of
    [sigma_b] has no zero, no special value occurs: the formula over the
    reals gives the values of the formula with special values. *)
Lemma formula_float_finite
    (lstsq : forall n : nat, 'M[R]_n -> 'rV[R]_n -> result (lstsq_out n))
    (n : nat) (sigma_b sigma_x : 'M[R]_n) (mu_x mu_b : 'rV[R]_n)
    (neofs : nat) (r d s : R) :
  \det sigma_x != 0 -> Rlt 0 (\det sigma_b / \det sigma_x) ->
  (forall i, sigma_b i i != 0) ->
  _relative_entropy_formula lstsq sigma_b sigma_x mu_x mu_b neofs
  = Ok (r, d, s) ->
  _relative_entropy_formula_float lstsq sigma_b sigma_x mu_x mu_b neofs
  = Ok (Fin r, Fin d, Fin s).
Proof.
move=> x0 /RltbP pos b0 /formula_inv [x [resid [rank [sv [Hx -> -> ->]]]]].
rewrite /_relative_entropy_formula_float Hx /= np_trace_divide_finite //.
by rewrite /np_fdiv x0 /np_log pos.
Qed.








(** ** What a computation appends to the trace *)

Section TraceFacts.

Variable rng_state : Type.

Local Notation py := (py rng_state).

Lemma all_cat_closed (p : pred event) : cat_closed (fun evs => all p evs).
Proof. by split=> // e1 e2 h1 h2; rewrite all_cat h1. Qed.

Lemma emits_ret A (a : A) Q : Q [::] -> emits (ret a : py A) Q.
Proof. by move=> q w; exists [::] => //=; rewrite cats0. Qed.

Lemma emits_raise A e Q : Q [::] -> emits (raise e : py A) Q.
Proof. by move=> q w; exists [::] => //=; rewrite cats0. Qed.

Lemma emits_of_result A (r : result A) Q :
  Q [::] -> emits (of_result r : py A) Q.
Proof. by move=> q w; exists [::] => //=; rewrite cats0. Qed.

Lemma emits_global_name A (b : option A) Q :
  Q [::] -> emits (global_name b : py A) Q.
Proof. by case: b => [a|] q; [exact: emits_ret | exact: emits_raise]. Qed.

Lemma emits_log e Q : Q [:: e] -> emits (log e : py unit) Q.
Proof. by move=> q w; exists [:: e] => //=; rewrite cats1. Qed.

Lemma emits_bind A B (m : py A) (k : A -> py B) (Q1 Q2 Q : seq event -> Prop) :
  emits m Q1 -> (forall a, emits (k a) Q2) ->
  (forall e1, Q1 e1 -> Q e1) ->
  (forall e1 e2, Q1 e1 -> Q2 e2 -> Q (e1 ++ e2)) ->
  emits (bind m k) Q.
Proof.
move=> Hm Hk Q1Q Q12 w; rewrite /bind.
have [e1 tr1 q1] := Hm w; case: (m w) tr1 => [[a|e] w1] /= tr1.
  have [e2 tr2 q2] := Hk a w1; exists (e1 ++ e2); last exact: Q12.
  by rewrite tr2 tr1 catA.
by exists e1 => //; exact: Q1Q.
Qed.

Lemma emits_bind_closed A B (m : py A) (k : A -> py B) Q :
  cat_closed Q -> emits m Q -> (forall a, emits (k a) Q) -> emits (bind m k) Q.
Proof. by case=> q0 qc Hm Hk; apply: (emits_bind Hm Hk). Qed.

Lemma emits_foldM A B (f : B -> A -> py B) Q (s : seq A) (b : B) :
  cat_closed Q -> (forall b a, emits (f b a) Q) -> emits (foldM f b s) Q.
Proof.
move=> cQ Hf; elim: s b => [|a s IH] b /=; first by apply: emits_ret; case: cQ.
by apply: emits_bind_closed.
Qed.

Lemma emits_weaken A (m : py A) (Q1 Q2 : seq event -> Prop) :
  (forall evs, Q1 evs -> Q2 evs) -> emits m Q1 -> emits m Q2.
Proof.
by move=> Q12 Hm w; have [evs tr q] := Hm w; exists evs => //; exact: Q12.
Qed.

End TraceFacts.
Section ProgramFacts.

Variable rng_state : Type.
Variable solver : Type.
Variable _pseudo_ens :
  DataArray -> ControlSeries -> rng_state -> result DataArray * rng_state.
Variable Eof : DataArray -> option (seq R) -> result solver.
Variable projectField :
  solver -> seq grid -> forall neofs : nat, result (seq 'rV[R]_neofs).
Variable lstsq : forall n : nat, 'M[R]_n -> 'rV[R]_n -> result (lstsq_out n).
Variable xr_mean_time : DataArray -> DataArray.
Variable xr_sub : DataArray -> DataArray -> DataArray.
Variable np_quantile : seq R -> R -> R.

Local Notation engine :=
  (@compute_relative_entropy rng_state solver Eof projectField lstsq
     xr_mean_time xr_sub).
Local Notation step := (@engine_step rng_state solver projectField lstsq).
Local Notation bootstrap :=
  (@bootstrap_relative_entropy rng_state solver _pseudo_ens Eof projectField
     lstsq xr_mean_time xr_sub np_quantile).

Lemma project_slice_emits slv anom init t neofs :
  emits (@project_slice rng_state solver projectField slv anom init t neofs)
    (fun evs => all is_project_call evs).
Proof.
have cQ := all_cat_closed is_project_call.
rewrite /project_slice; apply: emits_bind_closed => //.
  exact: emits_of_result.
move=> field; apply: emits_bind_closed => //; first exact: emits_log.
move=> _; apply: emits_bind_closed => //; first exact: emits_of_result.
by move=> pc; exact: emits_ret.
Qed.

Lemma engine_step_emits G slv anom_x anom_b neofs init rel_ent t :
  emits (step G slv anom_x anom_b neofs init rel_ent t)
    (fun evs => all is_project_call evs).
Proof.
have cQ := all_cat_closed is_project_call.
rewrite /engine_step; apply: emits_bind_closed => //.
  exact: project_slice_emits.
case=> mu_b sigma_b; apply: emits_bind_closed => //.
  exact: project_slice_emits.
case=> mu_x sigma_x; apply: emits_bind_closed => //.
  exact: emits_of_result.
case=> [[r d] s].
do 2![apply: emits_bind_closed => //; first exact: emits_global_name;
      move=> ?; apply: emits_bind_closed => //; first exact: emits_of_result;
      move=> ?].
apply: emits_bind_closed => //; first exact: emits_global_name.
by move=> ?; exact: emits_of_result.
Qed.

Lemma anomalies_emits G initialized cu a :
  emits (@anomalies rng_state xr_mean_time xr_sub G initialized cu a)
    (fun evs => all is_project_call evs).
Proof.
have cQ := all_cat_closed is_project_call.
rewrite /anomalies; case: a => /=; first exact: emits_ret.
apply: emits_bind_closed => //; first exact: emits_global_name.
by move=> _; exact: emits_ret.
Qed.

(** The engine logs its own call first, and projections after it. *)
Lemma engine_emits G initialized cu anomaly_data neofs curv ntime :
  emits (engine G initialized cu anomaly_data neofs curv ntime)
    (fun evs => exists2 rest,
       evs = EngineCall initialized cu (odflt false anomaly_data)
               (if neofs is Some n then n else member_size initialized)
               (odflt true curv)
               (if ntime is Some k then k
                else Z.of_nat (time_size initialized)) :: rest
       & all is_project_call rest).
Proof.
have cQ := all_cat_closed is_project_call.
rewrite /compute_relative_entropy.
set E := EngineCall _ _ _ _ _ _.
apply: (@emits_bind _ _ _ _ _ (fun evs => evs = [:: E])
          (fun evs => all is_project_call evs)).
- exact: emits_log.
- move=> _; apply: emits_bind_closed => //; first exact: anomalies_emits.
  case=> anom_x anom_b; apply: emits_bind_closed => //.
    exact: emits_of_result.
  move=> slv; apply: emits_foldM => // tbl init.
  by apply: emits_foldM => // tbl' t; exact: engine_step_emits.
- by move=> e1 ->; exists [::].
- by move=> e1 e2 -> h; exists e2.
Qed.

End ProgramFacts.
Section RunFacts.

Variable rng_state : Type.
Variable solver : Type.
Variable _pseudo_ens :
  DataArray -> ControlSeries -> rng_state -> result DataArray * rng_state.
Variable Eof : DataArray -> option (seq R) -> result solver.
Variable projectField :
  solver -> seq grid -> forall neofs : nat, result (seq 'rV[R]_neofs).
Variable lstsq : forall n : nat, 'M[R]_n -> 'rV[R]_n -> result (lstsq_out n).
Variable xr_mean_time : DataArray -> DataArray.
Variable xr_sub : DataArray -> DataArray -> DataArray.
Variable np_quantile : seq R -> R -> R.

Local Notation engine :=
  (@compute_relative_entropy rng_state solver Eof projectField lstsq
     xr_mean_time xr_sub).
Local Notation round :=
  (@bootstrap_round rng_state solver _pseudo_ens Eof projectField lstsq
     xr_mean_time xr_sub).
Local Notation bootstrap :=
  (@bootstrap_relative_entropy rng_state solver _pseudo_ens Eof projectField
     lstsq xr_mean_time xr_sub np_quantile).

Lemma rounds_within_cat n1 n2 e1 e2 :
  rounds_within n1 e1 -> rounds_within n2 e2 ->
  rounds_within (n1 + n2) (e1 ++ e2).
Proof.
rewrite /rounds_within !count_cat => /andP [a1 b1] /andP [a2 b2].
by rewrite !leq_add.
Qed.

Lemma rounds_withinW n1 n2 evs :
  (n1 <= n2)%N -> rounds_within n1 evs -> rounds_within n2 evs.
Proof.
by rewrite /rounds_within => le12 /andP [-> le1] /=; exact: leq_trans le12.
Qed.

Lemma call_pseudo_ens_emits reference control :
  emits (call_pseudo_ens _pseudo_ens reference control)
    (fun evs => exists out, evs = [:: PseudoEnsCall reference control out]).
Proof.
move=> w; rewrite /call_pseudo_ens.
case: (_pseudo_ens _ _ _) => out g /=.
exists [:: PseudoEnsCall reference control out]; first by rewrite cats1.
by exists out.
Qed.

Lemma count_projections (evs : seq event) :
  all is_project_call evs ->
  count is_engine_call evs = 0%N /\ count is_pseudo_ens_call evs = 0%N.
Proof.
elim: evs => [|e evs IH] //=.
by case: e => //= field n /IH [-> ->].
Qed.

Lemma projections_raw (evs : seq event) :
  all is_project_call evs -> all raw_engine_call evs.
Proof. by elim: evs => [|e evs IH] //=; case: e => //= field n /IH. Qed.

Lemma engine_rounds G initialized cu anomaly_data neofs curv ntime :
  emits (engine G initialized cu anomaly_data neofs curv ntime)
    (fun evs => count is_engine_call evs = 1%N
                /\ count is_pseudo_ens_call evs = 0%N).
Proof.
apply: emits_weaken (engine_emits _ _ _ _ _ _ _ _ _ _ _ _) => evs.
by case=> rest -> /count_projections [/= -> ->].
Qed.

Lemma round_events_cat n1 n2 e1 e2 :
  round_events n1 e1 -> round_events n2 e2 ->
  round_events (n1 + n2) (e1 ++ e2).
Proof.
case=> r1 a1 [r2 a2]; split; first exact: rounds_within_cat.
by rewrite all_cat a1.
Qed.

Lemma round_eventsW n1 n2 evs :
  (n1 <= n2)%N -> round_events n1 evs -> round_events n2 evs.
Proof. by move=> le12 [r a]; split=> //; exact: rounds_withinW r. Qed.

Lemma bootstrap_round_emits G initialized cu neofs curv ntime x :
  emits (round G initialized cu neofs curv ntime x) (round_events 1).
Proof.
have nil0 : round_events 0 [::] by [].
have nilT : round_tail [::] by [].
rewrite /bootstrap_round.
apply: (@emits_bind _ _ _ _ _ (fun evs => evs = [::]) (round_events 1)).
- exact: emits_global_name.
- move=> control.
  apply: (@emits_bind _ _ _ _ _ (fun evs => exists out,
            evs = [:: PseudoEnsCall initialized control out]) round_tail).
  + exact: call_pseudo_ens_emits.
  + move=> ds0.
    apply: (@emits_bind _ _ _ _ _ (fun evs => evs = [::]) round_tail).
    * exact: emits_of_result.
    * move=> ds1.
      apply: (@emits_bind _ _ _ _ _ (fun evs => evs = [::]) round_tail).
      - exact: emits_of_result.
      - move=> ds2.
        apply: (@emits_bind _ _ _ _ _ _ (fun evs => evs = [::]) _
                  (engine_emits _ _ _ _ _ _ _ _ _ _ _ _)).
        + by move=> tbl; exact: emits_ret.
        + move=> e1 [rest -> /= pr]; have [ce cp] := count_projections pr.
          by split; rewrite /= ?ce ?cp ?projections_raw.
        + move=> e1 e2 [rest -> /= pr] ->; rewrite cats0.
          have [ce cp] := count_projections pr.
          by split; rewrite /= ?ce ?cp ?projections_raw.
      - by move=> e1 ->; exact: nilT.
      - by move=> e1 e2 ->.
    * by move=> e1 ->; exact: nilT.
    * by move=> e1 e2 ->.
  + by move=> e1 [out ->].
  + move=> e1 e2 [out ->] [ce cp ar]; split=> /=; last by [].
    by rewrite /rounds_within /= cp !add0n addn0 ce.
- by move=> e1 ->; exact: round_eventsW nil0.
- by move=> e1 e2 ->.
Qed.

Lemma bootstrap_loop_emits G initialized cu neofs curv ntime s x :
  emits (foldM (fun x (_ : nat) =>
                  round G initialized cu neofs curv ntime x) x s)
    (round_events (size s)).
Proof.
elim: s x => [|k s IH] x /=; first exact: emits_ret.
apply: (emits_bind (bootstrap_round_emits _ _ _ _ _ _ _) (fun x' => IH x')).
  by move=> e1; exact: round_eventsW.
by move=> e1 e2; rewrite -add1n; exact: round_events_cat.
Qed.

Lemma bootstrap_emits G initialized cu sig b curv neofs ntime :
  emits (bootstrap G initialized cu sig b curv neofs ntime)
    (round_events
       (Z.to_nat (Z.min 1 (Z.quot (odflt 100%Z b)
                             (Z.of_nat (time_size initialized)))))).
Proof.
rewrite /bootstrap_relative_entropy /py_int_div; case: ifP => _.
  by move=> w; exists [::]; rewrite /= ?cats0.
move=> w; rewrite {1}/bind /of_result.
set q := Z.quot _ _.
apply: (@emits_bind _ _ _ _ _ (round_events (Z.to_nat (Z.min 1 q)))
          (fun evs => evs = [::])).
- have := @bootstrap_loop_emits G initialized cu
    (if neofs is Some n then n else member_size initialized) (odflt true curv)
    (if ntime is Some k then k else Z.of_nat (time_size initialized))
    (py_range (Z.min 1 q)) [::].
  by rewrite /py_range size_iota.
- move=> x; apply: emits_bind_closed; first by split=> // e1 e2 -> ->.
    exact: emits_of_result.
  by move=> df; exact: emits_ret.
- by [].
- by move=> e1 e2 h ->; rewrite cats0.
Qed.

Lemma cat_inj_l (T : Type) (s a b : seq T) : s ++ a = s ++ b -> a = b.
Proof. by elim: s => [|x s IH] //= [] /IH. Qed.

(** C5. The loop of line 195 runs [min(1, int(bootstrap / time.size))]
    times, not [max(1, ...)]: whatever the inputs, at most one round begins
    and at most one engine run follows, which is not the specification's
    count unless the quotient is exactly one; with [bootstrap < time.size]
    no round runs and [pd.concat] raises on the empty list; and with the
    module's own globals the first round stops at the unbound name
    [control]. *)
Theorem bootstrap_runs_at_most_one_round (G : globals)
    (initialized control_uninitialized : DataArray) (sig : option R)
    (b : option Z) (curv : option bool) (neofs : option nat)
    (ntime : option Z) (w : world rng_state) :
  let bs := odflt 100%Z b in
  let ts := Z.of_nat (time_size initialized) in
  let run G := bootstrap G initialized control_uninitialized sig b curv neofs
                 ntime w in
  [/\ exists2 evs, trace (run G).2 = trace w ++ evs
        & rounds_within (Z.to_nat (Z.min 1 (Z.quot bs ts))) evs,
      (Z.to_nat (Z.min 1 (Z.quot bs ts)) <= 1)%N,
      (0 <= bs)%Z -> ts <> 0%Z -> Z.quot bs ts <> 1%Z ->
      Z.of_nat (Z.to_nat (Z.min 1 (Z.quot bs ts))) <> spec_rounds bs ts,
      ts <> 0%Z -> (Z.quot bs ts <= 0)%Z -> run G = (Err ValueError, w)
    & (1 <= Z.quot bs ts)%Z -> run module_globals = (Err NameError, w)].
Proof.
move=> bs ts run; split.
- have [evs tr [rw _]] := @bootstrap_emits G initialized control_uninitialized
    sig b curv neofs ntime w.
  by exists evs.
- by apply/leP; lia.
- move=> bs0 ts0 q1; rewrite /spec_rounds.
  have tspos : (0 < ts)%Z by rewrite /ts in ts0 *; lia.
  rewrite -(Z.quot_div_nonneg bs ts) //; lia.
- move=> ts0 q0; rewrite /run /bootstrap_relative_entropy /py_int_div.
  have -> : (Z.of_nat (time_size initialized) =? 0)%Z = false.
    by apply/Z.eqb_neq.
  rewrite /bind /of_result /py_range.
  have -> : Z.to_nat (Z.min 1 (Z.quot (odflt 100%Z b)
              (Z.of_nat (time_size initialized)))) = 0%N.
    by rewrite -/bs -/ts; lia.
  by [].
- move=> q1; rewrite /run /bootstrap_relative_entropy /py_int_div.
  have -> : (Z.of_nat (time_size initialized) =? 0)%Z = false.
    apply/Z.eqb_neq => ts0; move: q1; rewrite /ts ts0 Z.quot_0_r_ext //.
  rewrite /bind /of_result /py_range.
  have -> : Z.to_nat (Z.min 1 (Z.quot (odflt 100%Z b)
              (Z.of_nat (time_size initialized)))) = 1%N.
    by rewrite -/bs -/ts; lia.
  by [].
Qed.

Lemma size_np_arange k : size (np_arange k) = k.
Proof. by rewrite /np_arange size_map size_iota. Qed.

(** C10. Every engine call the bootstrap makes leaves [anomaly_data] at its
    default: no event of a bootstrap run is an engine call with
    [anomaly_data] true.  But nothing is subtracted in such a call: when
    [control] is bound, which a round needs to get as far as the engine, the
    quotient is at least one and the generator returns an ensemble of the
    reference's shape, the engine is called on the relabelled round with
    [anomaly_data] false and stops with [NameError] at the guard of line
    109, its own call being the last event of the run. *)
Theorem bootstrap_engine_call_stops_at_guard (G : globals)
    (initialized control_uninitialized : DataArray) (sig : option R)
    (b : option Z) (curv : option bool) (neofs : option nat)
    (ntime : option Z) (w : world rng_state) :
  let bs := odflt 100%Z b in
  let ts := Z.of_nat (time_size initialized) in
  let run := bootstrap G initialized control_uninitialized sig b curv neofs
               ntime w in
  (exists2 evs, trace run.2 = trace w ++ evs & all raw_engine_call evs)
  /\ (forall control out g,
        g_control G = Some control ->
        g_detrend_by_control_time_mean G = None ->
        (1 <= Z.quot bs ts)%Z ->
        _pseudo_ens initialized control (rng w) = (Ok out, g) ->
        size (initialization out) = size (initialization initialized) ->
        run
        = (Err NameError,
           mkWorld g
             (trace w
              ++ [:: PseudoEnsCall initialized control (Ok out);
                     EngineCall
                       (mkDataArray (initialization initialized)
                          (np_arange (member_size out)) (time out) (lat out)
                          (blocks out))
                       control_uninitialized false
                       (if neofs is Some n then n
                        else member_size initialized)
                       (odflt true curv)
                       (if ntime is Some k then k
                        else Z.of_nat (time_size initialized))]))).
Proof.
move=> bs ts run; split.
  have [evs tr [_ ar]] := @bootstrap_emits G initialized control_uninitialized
    sig b curv neofs ntime w.
  by exists evs.
move=> control out g Hc Hd q1 Hpe Hsz.
rewrite /run /bootstrap_relative_entropy /py_int_div.
have -> : (Z.of_nat (time_size initialized) =? 0)%Z = false.
  apply/Z.eqb_neq => ts0; move: q1; rewrite /ts ts0 Z.quot_0_r_ext //.
rewrite {1}/bind {1}/of_result /py_range.
have -> : Z.to_nat (Z.min 1 (Z.quot (odflt 100%Z b)
            (Z.of_nat (time_size initialized)))) = 1%N.
  by rewrite -/bs -/ts; lia.
rewrite /= /bootstrap_round Hc /bind /ret /of_result /call_pseudo_ens /= Hpe.
rewrite /set_initialization Hsz eqxx /set_member /member_size /=.
rewrite size_np_arange eqxx /compute_relative_entropy /bind /log /anomalies.
by rewrite /= Hd /= -!cats1 -catA.
Qed.

(** ** The engine *)

Lemma engine_step_unbound_ens slv anom_x anom_b neofs init rel_ent t
    (w : world rng_state) :
  exists e w',
    @engine_step rng_state solver projectField lstsq module_globals slv
      anom_x anom_b neofs init rel_ent t w = (Err e, w').
Proof.
rewrite /engine_step /bind.
case: (project_slice _ _ _ _ _ _ _) => [[[mu_b sigma_b]|e] w1];
  last by exists e, w1.
case: (project_slice _ _ _ _ _ _ _) => [[[mu_x sigma_x]|e] w2];
  last by exists e, w2.
rewrite /of_result.
case: (_relative_entropy_formula_xr _ _ _ _ _ _) => [[[r d] s]|e];
  last by exists e, w2.
by exists NameError, w2.
Qed.

Lemma foldM_raises (A B : Type) (f : B -> A -> py rng_state B) :
  (forall b a w, exists e w', f b a w = (Err e, w')) ->
  forall a s b w, exists e w', foldM f b (a :: s) w = (Err e, w').
Proof.
move=> Hf a s b w; rewrite /= /bind.
by have [e [w' ->]] := Hf b a w; exists e, w'.
Qed.

Lemma foldM_skips (A B : Type) (s : seq A) (b : B) (w : world rng_state) :
  foldM (fun b' (_ : A) => foldM (fun b'' (_ : A) => ret b'') b' [::]) b s w
  = (Ok b, w).
Proof. by elim: s b w => [|a s IH] b w //=; rewrite /bind /= IH. Qed.

(** C7. With [anomaly_data] false, given or left out, the engine under the
    module's own globals stops with [NameError] at the guard of line 109,
    having projected nothing: its own call is the only event.  Where the
    guard's name is bound, the anomalies are the two differences with the
    time mean of [control_uninitialized]; with [anomaly_data] true they are
    the inputs themselves. *)
Theorem raw_inputs_stop_at_unbound_guard
    (initialized control_uninitialized : DataArray) (neofs : option nat)
    (curv : option bool) (ntime : option Z) (w : world rng_state) :
  let stopped : result DataFrame * world rng_state :=
    (Err NameError,
     mkWorld (rng w)
       (rcons (trace w)
          (EngineCall initialized control_uninitialized false
             (if neofs is Some n then n else member_size initialized)
             (odflt true curv)
             (if ntime is Some k then k
              else Z.of_nat (time_size initialized))))) in
  [/\ engine module_globals initialized control_uninitialized (Some false)
        neofs curv ntime w = stopped,
      engine module_globals initialized control_uninitialized None
        neofs curv ntime w = stopped,
      forall G flag,
        g_detrend_by_control_time_mean G = Some flag ->
        anomalies xr_mean_time xr_sub G initialized control_uninitialized
          false w
        = (Ok (xr_sub initialized (xr_mean_time control_uninitialized),
               xr_sub control_uninitialized
                 (xr_mean_time control_uninitialized)), w)
    & forall G,
        anomalies xr_mean_time xr_sub G initialized control_uninitialized
          true w
        = (Ok (initialized, control_uninitialized), w)].
Proof. by split=> // G flag; rewrite /anomalies /= => ->. Qed.

(** C8. Under the module's own globals every pass through the loop body
    stops at the unbound name [ens] of line 156, if not before: the engine
    returns a table only when a loop is empty, the call had [anomaly_data]
    true, and the table is then the frame of lines 116-123 with every cell
    missing. *)
Theorem engine_returns_only_the_empty_frame
    (initialized control_uninitialized : DataArray)
    (anomaly_data : option bool) (neofs : option nat) (curv : option bool)
    (ntime : option Z) (w w' : world rng_state) (tbl : DataFrame) :
  engine module_globals initialized control_uninitialized anomaly_data neofs
    curv ntime w = (Ok tbl, w') ->
  let nt :=
    if ntime is Some k then k else Z.of_nat (time_size initialized) in
  let tt := np_arange2 1 (time_size initialized) in
  let mindex :=
    from_product [:: comp_R; comp_S; comp_D] (initialization initialized) in
  [/\ initialization initialized = [::]
      \/ py_take nt (time initialized) = [::],
      anomaly_data = Some true
    & tbl = mkDataFrame tt (Some "Lead Year"%string) mindex
              (nseq (size tt) (nseq (size mindex) None))].
Proof.
move=> Hrun nt tt mindex; move: Hrun.
rewrite /compute_relative_entropy /bind /log /=.
case: anomaly_data => [[|]|] //=.
rewrite /of_result; case: (Eof _ _) => [slv|e] //.
rewrite -/nt -/tt -/mindex.
case Ei: (initialization initialized) => [|init inits] /=.
  by case=> <- _; split=> //; left.
case Et: (py_take nt (time initialized)) => [|t ts].
  rewrite /bind /= (@foldM_skips Z DataFrame inits); case=> <- _.
  by split=> //; right.
rewrite /bind.
have [e [w1 ->]] := foldM_raises (engine_step_unbound_ens slv initialized
  control_uninitialized (if neofs is Some n then n else member_size initialized)
  init) t ts (mkDataFrame tt (Some "Lead Year"%string) mindex
                (nseq (size tt) (nseq (size mindex) None)))
  (mkWorld (rng w) (rcons (trace w)
     (EngineCall initialized control_uninitialized true
        (if neofs is Some n then n else member_size initialized)
        (odflt true curv) nt))).
by [].
Qed.

End RunFacts.

(** ** The repeated generator *)

Section GeneratorClaims.

Variable rng_state : Type.
Variable _pseudo_ens :
  DataArray -> ControlSeries -> rng_state -> result DataArray * rng_state.





End GeneratorClaims.

(** ** The statements at concrete inputs *)



Lemma bootstrap_engine_call_stops_at_guard_witness :
  bootstrap_relative_entropy counter_pseudo_ens unit_Eof
    coordinate_projectField exact_lstsq positional_mean_time positional_sub
    head_quantile control_bound small_ensemble small_baseline None None None
    None None (mkWorld 0%N [::])
  = (Err NameError,
     mkWorld 4%N
       [:: PseudoEnsCall small_ensemble small_control (Ok first_round);
           EngineCall
             (mkDataArray [:: 1990%Z; 1991%Z] [:: 0%Z; 1%Z] [:: 1%Z; 2%Z]
                [:: 0] (blocks first_round))
             small_baseline false 2 true 2]).
Proof.
have [_ H] :=
  @bootstrap_engine_call_stops_at_guard nat unit counter_pseudo_ens unit_Eof
    coordinate_projectField exact_lstsq positional_mean_time positional_sub
    head_quantile control_bound small_ensemble small_baseline None None None
    None None (mkWorld 0%N [::]).
have q1 : (1 <= Z.quot (odflt 100%Z None)
                  (Z.of_nat (time_size small_ensemble)))%Z by [].
exact: (H small_control first_round 4%N (erefl _) (erefl _) q1 (erefl _)
          (erefl _)).
Defined.

Lemma engine_returns_only_the_empty_frame_witness :
  exists tbl w',
    compute_relative_entropy unit_Eof coordinate_projectField exact_lstsq
      positional_mean_time positional_sub module_globals small_ensemble
      small_ensemble (Some true) None None (Some 0%Z) (mkWorld 0%N [::])
    = (Ok tbl, w')
    /\ [/\ initialization small_ensemble = [::]
           \/ py_take 0%Z (time small_ensemble) = [::],
           Some true = Some true
         & tbl = mkDataFrame (np_arange2 1 (time_size small_ensemble))
                   (Some "Lead Year"%string)
                   (from_product [:: comp_R; comp_S; comp_D]
                      (initialization small_ensemble))
                   (nseq (size (np_arange2 1 (time_size small_ensemble)))
                      (nseq (size (from_product [:: comp_R; comp_S; comp_D]
                                     (initialization small_ensemble)))
                         None))].
Proof.
do 2!eexists; split; first by reflexivity.
exact: (@engine_returns_only_the_empty_frame nat unit unit_Eof
          coordinate_projectField exact_lstsq positional_mean_time
          positional_sub small_ensemble small_ensemble (Some true) None None
          (Some 0%Z) (mkWorld 0%N [::]) _ _ (erefl _)).
Defined.


(** * Further properties of the formula *)

Section FormulaProperties.

Variable lstsq : forall n : nat, 'M[R]_n -> 'rV[R]_n -> result (lstsq_out n).

Hypothesis lstsq_full_rank :
  forall (n : nat) (a : 'M[R]_n) (b : 'rV[R]_n),
    a \in unitmx ->
    exists x resid rank s,
      lstsq a b = Ok (x, resid, rank, s) /\ a *m x^T = b^T.

(** On an invertible matrix the solution returned is the only one. *)
Lemma lstsq_unit_solution n (a : 'M[R]_n) (b x : 'rV[R]_n) resid rank s :
  a \in unitmx -> lstsq a b = Ok (x, resid, rank, s) ->
  x^T = invmx a *m b^T.
Proof.
move=> ua Hx; have [x' [? [? [? [Hx' Hsol]]]]] := lstsq_full_rank b ua.
by move: Hx'; rewrite Hx => -[-> _ _ _]; rewrite -Hsol mulKmx.
Qed.

Lemma signal_quadform n (a : 'M[R]_n) (b x : 'rV[R]_n) resid rank s :
  spd a -> lstsq a b = Ok (x, resid, rank, s) ->
  np_matmul1 b x = quadform a x /\ (x = 0 -> b = 0).
Proof.
case=> sym pd Hx; have ua := posdef_unitmx pd.
have Hsol : a *m x^T = b^T by rewrite (lstsq_unit_solution ua Hx) mulKVmx.
split.
  rewrite np_matmul1E /quadform; congr ((_ *m _) 0 0).
  by rewrite -[b]trmxK -Hsol trmx_mul trmxK sym.
by move=> x0; rewrite -[b]trmxK -Hsol x0 trmx0 mulmx0 trmx0.
Qed.

(** X2. For a symmetric positive-definite [sigma_b] the signal is zero
    exactly when the two mean vectors are equal. *)
Theorem signal_zero_iff_equal_means (n : nat) (sigma_b sigma_x : 'M[R]_n)
    (mu_x mu_b : 'rV[R]_n) (r d s : R) :
  spd sigma_b ->
  _relative_entropy_formula lstsq sigma_b sigma_x mu_x mu_b n = Ok (r, d, s) ->
  (s = 0 <-> mu_x = mu_b).
Proof.
move=> sB /formula_inv [x [resid [rank [sv [Hx _ -> _]]]]].
have [-> x0] := signal_quadform sB Hx; split=> [q0|E]; last first.
  move: Hx; rewrite E subrr => Hx.
  have := lstsq_unit_solution (posdef_unitmx sB.2) Hx.
  rewrite trmx0 mulmx0 => /(congr1 trmx); rewrite trmxK trmx0 => ->.
  by rewrite /quadform !mul0mx mxE mulr0.
apply/eqP; rewrite -subr_eq0; apply/eqP; apply: x0.
apply/eqP; apply/negPn/negP => /sB.2 pos.
by move: q0 pos; to_real => q0 pos; lra.
Qed.

(** X3. With equal covariance matrices the dispersion vanishes and the total
    is the signal. *)
Theorem equal_covariances_no_dispersion (n : nat) (sigma : 'M[R]_n)
    (mu_x mu_b : 'rV[R]_n) (r d s : R) :
  spd sigma ->
  _relative_entropy_formula lstsq sigma sigma mu_x mu_b n = Ok (r, d, s) ->
  d = 0 /\ r = s.
Proof.
case=> _ pd /formula_inv [x [resid [rank [sv [_ Hd _ Hr]]]]].
have d0 : d = 0.
  rewrite Hd divff ?posdef_det_neq0 // trace_np_divide_self //.
  have -> : ln 1 = 0 by exact: ln_1.
  by rewrite add0r subrr mulr0.
by rewrite Hr d0 add0r.
Qed.

Lemma invmx_diag n (e : 'rV[R]_n) :
  (forall i, e 0 i != 0) -> invmx (diag_mx e) = diag_mx (\row_j (e 0 j)^-1).
Proof.
move=> e0; apply: invmx_uniq; rewrite mulmx_diag.
apply/matrixP => i j; rewrite !mxE; case: eqP => // _.
by rewrite mulVf.
Qed.

(** X4. For a diagonal [sigma_b] with non-zero diagonal the entry-wise
    quotient of line 38 has the trace of [sigma_x sigma_b^-1]: the dispersion
    is then the one of the documented formula, whatever [sigma_x]. *)
Theorem dispersion_agrees_for_diagonal_baseline (n : nat) (e : 'rV[R]_n)
    (sigma_x : 'M[R]_n) (mu_x mu_b : 'rV[R]_n) (r d s : R) :
  (forall i, e 0 i != 0) ->
  _relative_entropy_formula lstsq (diag_mx e) sigma_x mu_x mu_b n
  = Ok (r, d, s) ->
  d = spec_dispersion (diag_mx e) sigma_x.
Proof.
move=> e0 /formula_inv [x [resid [rank [sv [_ -> _ _]]]]].
rewrite /spec_dispersion; congr (_ * (_ + _ - _)).
rewrite invmx_diag // mul_mx_diag trace_np_divide /mxtrace.
by apply: eq_bigr => i _; rewrite !mxE eqxx mulr1n.
Qed.

Lemma np_divide_scale m n (c : R) (A B : 'M[R]_(m, n)) :
  c != 0 -> np_divide (c *: A) (c *: B) = np_divide A B.
Proof.
move=> c0; apply/matrixP => i j; rewrite !mxE -mulf_div divff //.
by rewrite mul1r.
Qed.

(** X5. Scaling both covariance matrices by the same non-zero factor [c]
    leaves the dispersion as it is and divides the signal by [c]. *)
Theorem common_scaling_of_covariances (n : nat) (c : R)
    (sigma_b sigma_x : 'M[R]_n) (mu_x mu_b : 'rV[R]_n)
    (r d s r' d' s' : R) :
  c != 0 -> sigma_b \in unitmx ->
  _relative_entropy_formula lstsq sigma_b sigma_x mu_x mu_b n
  = Ok (r, d, s) ->
  _relative_entropy_formula lstsq (c *: sigma_b) (c *: sigma_x) mu_x mu_b n
  = Ok (r', d', s') ->
  d' = d /\ s' = s / c.
Proof.
move=> c0 uB /formula_inv [x [resid [rank [sv [Hx -> -> _]]]]].
move=> /formula_inv [x' [resid' [rank' [sv' [Hx' -> -> _]]]]].
have ucB : c *: sigma_b \in unitmx by rewrite unitmxZ // unitfE.
split.
  rewrite np_divide_scale // !detZ -mulf_div divff ?mul1r //.
  by rewrite expf_neq0.
have := lstsq_unit_solution ucB Hx'.
rewrite invmxZ // -scalemxAl -(lstsq_unit_solution uB Hx) => /(congr1 trmx).
rewrite trmxK linearZ /= trmxK => ->.
rewrite !np_matmul1E linearZ /= -scalemxAr mxE.
by rewrite [c^-1 * _]mulrC mulrA.
Qed.

End FormulaProperties.

Lemma two_neq0 : (2 : R) != 0.
Proof. by apply/eqP; to_real; lra. Qed.

Lemma signal_nonnegative_witness :
  spd sigma_2112 /\
  exists r d s,
    _relative_entropy_formula exact_lstsq sigma_2112 sigma_1001
      (const_mx 1) 0 2 = Ok (r, d, s)
    /\ Rle 0 s.
Proof.
split; first exact: spd_sigma_2112.
do 3!eexists; split; first by reflexivity.
exact: (@signal_nonnegative exact_lstsq exact_lstsq_solves 2 sigma_2112
          sigma_1001 (const_mx 1) 0 _ _ _ spd_sigma_2112 (erefl _)).
Defined.

Lemma signal_zero_iff_equal_means_witness :
  spd sigma_2112 /\
  exists r d s,
    _relative_entropy_formula exact_lstsq sigma_2112 sigma_1001
      (const_mx 1) 0 2 = Ok (r, d, s)
    /\ (s = 0 <-> const_mx 1 = (0 : 'rV[R]_2)).
Proof.
split; first exact: spd_sigma_2112.
do 3!eexists; split; first by reflexivity.
exact: (@signal_zero_iff_equal_means exact_lstsq exact_lstsq_solves 2
          sigma_2112 sigma_1001 (const_mx 1) 0 _ _ _ spd_sigma_2112
          (erefl _)).
Defined.

Lemma equal_covariances_no_dispersion_witness :
  spd sigma_2112 /\
  exists r d s,
    _relative_entropy_formula exact_lstsq sigma_2112 sigma_2112
      (const_mx 1) 0 2 = Ok (r, d, s)
    /\ (d = 0 /\ r = s).
Proof.
split; first exact: spd_sigma_2112.
do 3!eexists; split; first by reflexivity.
exact: (@equal_covariances_no_dispersion exact_lstsq 2 sigma_2112
          (const_mx 1) 0 _ _ _ spd_sigma_2112 (erefl _)).
Defined.

Lemma dispersion_agrees_for_diagonal_baseline_witness :
  (forall i, (const_mx 2 : 'rV[R]_2) 0 i != 0) /\
  exists r d s,
    _relative_entropy_formula exact_lstsq (diag_mx (const_mx 2)) sigma_2112
      (const_mx 1) 0 2 = Ok (r, d, s)
    /\ d = spec_dispersion (diag_mx (const_mx 2)) sigma_2112.
Proof.
have e0 : forall i, (const_mx 2 : 'rV[R]_2) 0 i != 0.
  by move=> i; rewrite mxE; exact: two_neq0.
split; first exact: e0.
do 3!eexists; split; first by reflexivity.
exact: (@dispersion_agrees_for_diagonal_baseline exact_lstsq 2 (const_mx 2)
          sigma_2112 (const_mx 1) 0 _ _ _ e0 (erefl _)).
Defined.

Lemma common_scaling_of_covariances_witness :
  (2 : R) != 0 /\ sigma_2112 \in unitmx /\
  exists r d s r' d' s',
    [/\ _relative_entropy_formula exact_lstsq sigma_2112 sigma_1001
          (const_mx 1) 0 2 = Ok (r, d, s),
        _relative_entropy_formula exact_lstsq (2 *: sigma_2112)
          (2 *: sigma_1001) (const_mx 1) 0 2 = Ok (r', d', s')
      & d' = d /\ s' = s / 2].
Proof.
split; first exact: two_neq0.
have uB := posdef_unitmx spd_sigma_2112.2.
split; first exact: uB.
do 6!eexists; split; [by reflexivity | by reflexivity |].
exact: (@common_scaling_of_covariances exact_lstsq exact_lstsq_solves 2 2
          sigma_2112 sigma_1001 (const_mx 1) 0 _ _ _ _ _ _ two_neq0 uB
          (erefl _) (erefl _)).
Defined.


(** * Further properties of the runs *)

Section RunProperties.

Variable rng_state : Type.
Variable solver : Type.
Variable _pseudo_ens :
  DataArray -> ControlSeries -> rng_state -> result DataArray * rng_state.
Variable Eof : DataArray -> option (seq R) -> result solver.
Variable projectField :
  solver -> seq grid -> forall neofs : nat, result (seq 'rV[R]_neofs).
Variable lstsq : forall n : nat, 'M[R]_n -> 'rV[R]_n -> result (lstsq_out n).
Variable xr_mean_time : DataArray -> DataArray.
Variable xr_sub : DataArray -> DataArray -> DataArray.
Variable np_quantile : seq R -> R -> R.

Local Notation engine :=
  (@compute_relative_entropy rng_state solver Eof projectField lstsq
     xr_mean_time xr_sub).
Local Notation step := (@engine_step rng_state solver projectField lstsq).
Local Notation bootstrap :=
  (@bootstrap_relative_entropy rng_state solver _pseudo_ens Eof projectField
     lstsq xr_mean_time xr_sub np_quantile).
Local Notation gen := (@_gen_control_distribution rng_state _pseudo_ens).

(** ** [_gen_control_distribution] *)

(** X6. With [it] zero or negative no round is generated, and [xr.concat]
    raises [ValueError] on the empty list; the random source is not touched. *)
Theorem gen_control_distribution_without_rounds (ds : DataArray)
    (control : ControlSeries) (it : option Z) (w : world rng_state) :
  (odflt 10%Z it <= 0)%Z ->
  gen ds control it w = (Err ValueError, w).
Proof.
move=> it0; rewrite /_gen_control_distribution /py_range.
have -> : Z.to_nat (odflt 10%Z it) = 0%N by lia.
by [].
Qed.

(** X7. When the generator raises in the first round, its exception leaves
    [_gen_control_distribution] after that one call. *)
Theorem gen_control_distribution_generator_raises (ds : DataArray)
    (control : ControlSeries) (it : option Z) (w : world rng_state)
    (e : exn) (g : rng_state) :
  (0 < odflt 10%Z it)%Z ->
  _pseudo_ens ds control (rng w) = (Err e, g) ->
  gen ds control it w
  = (Err e, mkWorld g (rcons (trace w) (PseudoEnsCall ds control (Err e)))).
Proof.
move=> it0 Hpe; rewrite /_gen_control_distribution /py_range.
have [k ->] : exists k, Z.to_nat (odflt 10%Z it) = k.+1.
  by exists (Z.to_nat (odflt 10%Z it)).-1; lia.
by rewrite /= /bind /call_pseudo_ens Hpe.
Qed.

(** X8. A round whose initialization axis has another length than that of
    [ds] cannot take the labels of [ds]: line 69 raises [ValueError]. *)
Theorem gen_control_distribution_misshaped_round (ds : DataArray)
    (control : ControlSeries) (it : option Z) (w : world rng_state)
    (out : DataArray) (g : rng_state) :
  (0 < odflt 10%Z it)%Z ->
  _pseudo_ens ds control (rng w) = (Ok out, g) ->
  size (initialization out) <> size (initialization ds) ->
  gen ds control it w
  = (Err ValueError,
     mkWorld g (rcons (trace w) (PseudoEnsCall ds control (Ok out)))).
Proof.
move=> it0 Hpe /eqP/negPf ne; rewrite /_gen_control_distribution /py_range.
have [k ->] : exists k, Z.to_nat (odflt 10%Z it) = k.+1.
  by exists (Z.to_nat (odflt 10%Z it)).-1; lia.
rewrite /= /bind /call_pseudo_ens Hpe /of_result /set_initialization.
by rewrite eq_sym ne.
Qed.

(** ** [compute_relative_entropy] *)

Lemma size_np_arange2 a b : size (np_arange2 a b) = (b - a)%N.
Proof. by rewrite /np_arange2 size_map size_iota. Qed.

Lemma size_from_product cs inits :
  size (from_product cs inits) = (size cs * size inits)%N.
Proof.
rewrite /from_product; elim: cs => [|c cs IH] //=.
by rewrite size_cat size_map IH mulSn.
Qed.

Lemma label_pos_lt x s i : label_pos x s = Some i -> (i < size s)%N.
Proof. by rewrite /label_pos; case: ifP => // lt [<-]. Qed.

Lemma column_pos_lt c k cols j :
  column_pos c k cols = Some j -> (j < size cols)%N.
Proof. by rewrite /column_pos; case: ifP => // lt [<-]. Qed.

Lemma all_set_nth (T : Type) (p : pred T) (x0 y : T) (s : seq T) (i : nat) :
  (i < size s)%N -> all p s -> p y -> all p (set_nth x0 s i y).
Proof.
elim: s i => [|x s IH] [|i] //= lt /andP [px ps] py; first by rewrite py.
by rewrite px IH.
Qed.

Lemma size_set_nth_lt (T : Type) (x0 y : T) (s : seq T) (i : nat) :
  (i < size s)%N -> size (set_nth x0 s i y) = size s.
Proof. by move=> lt; rewrite size_set_nth; apply/maxn_idPr. Qed.

Lemma df_setitem_frame tt mindex df c k t v df' :
  frame_of tt mindex df -> df_setitem df c k t v = Ok df' ->
  frame_of tt mindex df'.
Proof.
case=> Hi Hn Hc Hs Ha; rewrite /df_setitem.
case Ej: (column_pos _ _ _) => [j|] //.
case Ei: (label_pos _ _) => [i|]; last by case=> <-.
case=> <-; split=> //=.
  by rewrite size_set_nth_lt // Hs -Hi (label_pos_lt Ei).
have lti : (i < size (df_cells df))%N by rewrite Hs -Hi (label_pos_lt Ei).
apply: all_set_nth => //.
have /eqP sr : size (nth [::] (df_cells df) i) == size mindex.
  by move/all_nthP: Ha; apply.
by rewrite size_set_nth_lt ?sr // -Hc (column_pos_lt Ej).
Qed.

Lemma foldM_inv (A B : Type) (P : B -> Prop) (f : B -> A -> py rng_state B)
    (s : seq A) :
  (forall b a w b' w', List.In a s -> P b -> f b a w = (Ok b', w') -> P b') ->
  forall b w b' w', P b -> foldM f b s w = (Ok b', w') -> P b'.
Proof.
elim: s => [|a s IH] Hf b w b' w' Pb /=; first by case=> <-.
rewrite /bind; case E: (f b a w) => [[b1|e] w1] // Hrest.
apply: IH Hrest; last by apply: Hf E => //; left.
by move=> b0 a0 w0 b0' w0' ina; apply: Hf; right.
Qed.

Lemma engine_step_frame tt mindex G slv anom_x anom_b neofs init tbl t
    (w w' : world rng_state) tbl' :
  frame_of tt mindex tbl ->
  step G slv anom_x anom_b neofs init tbl t w = (Ok tbl', w') ->
  frame_of tt mindex tbl'.
Proof.
move=> Hf; rewrite /engine_step /bind.
case: (project_slice _ _ _ _ _ _ _) => [[[mu_b sigma_b]|e] w1] //.
case: (project_slice _ _ _ _ _ _ _) => [[[mu_x sigma_x]|e] w2] //.
rewrite /of_result.
case: (_relative_entropy_formula_xr _ _ _ _ _ _) => [[[r d] s]|e] //.
case: (g_ens G) => [ens|] //=.
case E1: (df_setitem _ _ _ _ _) => [t1|e] //.
case E2: (df_setitem _ _ _ _ _) => [t2|e] //.
case E3: (df_setitem _ _ _ _ _) => [t3|e] // [<- _].
exact: df_setitem_frame (df_setitem_frame (df_setitem_frame Hf E1) E2) E3.
Qed.

(** X12. Whatever the globals, a table the engine returns has the row labels
    [1 .. time.size - 1] named "Lead Year", the columns [{R, S, D}] times the
    initialization labels of [initialized], and one cell for each row and
    column: [time.size - 1] rows of [3 * initialization.size] cells. *)
Theorem engine_table_shape (G : globals)
    (initialized control_uninitialized : DataArray)
    (anomaly_data : option bool) (neofs : option nat) (curv : option bool)
    (ntime : option Z) (w w' : world rng_state) (tbl : DataFrame) :
  engine G initialized control_uninitialized anomaly_data neofs curv ntime w
  = (Ok tbl, w') ->
  [/\ df_index tbl = np_arange2 1 (time_size initialized),
      df_index_name tbl = Some "Lead Year"%string,
      df_columns tbl
      = from_product [:: comp_R; comp_S; comp_D] (initialization initialized),
      size (df_cells tbl) = (time_size initialized - 1)%N
    & all (fun row => size row == (3 * size (initialization initialized))%N)
        (df_cells tbl)].
Proof.
rewrite /compute_relative_entropy {1}/bind /log /=.
rewrite {1}/bind.
case: (anomalies _ _ _ _ _ _ _) => [[[anom_x anom_b]|e] w1] //.
rewrite {1}/bind /of_result; case: (Eof _ _) => [slv|e] //.
set tt := np_arange2 _ _; set mindex := from_product _ _.
set tbl0 := mkDataFrame _ _ _ _ => Hrun.
have F0 : frame_of tt mindex tbl0.
  split=> //=; first by rewrite size_nseq.
  by apply/allP => row /nseqP [-> _]; rewrite size_nseq.
have [Hi Hn Hc Hs Ha] : frame_of tt mindex tbl.
  apply: (foldM_inv _ F0 Hrun) => b init w0 b' w0' _ Pb.
  apply: foldM_inv => // b1 t w2 b2 w3 _.
  exact: engine_step_frame.
split=> //; first by rewrite Hs size_np_arange2.
by move: Ha; rewrite size_from_product.
Qed.

(** No pass through the loop body returns: the formula raises on the
    wrappers it is given, if nothing has raised before. *)
Lemma engine_step_raises G slv anom_x anom_b neofs init tbl t
    (w : world rng_state) :
  exists e w', step G slv anom_x anom_b neofs init tbl t w = (Err e, w').
Proof.
rewrite /engine_step /bind.
case: (project_slice _ _ _ _ _ _ _) => [[[mu_b sigma_b]|e] w1];
  last by exists e, w1.
case: (project_slice _ _ _ _ _ _ _) => [[[mu_x sigma_x]|e] w2];
  last by exists e, w2.
rewrite /of_result /_relative_entropy_formula_xr.
case: sigma_b => [vb|sb]; first by exists LinAlgError, w2.
case: sigma_x => [vx|sx]; first by exists LinAlgError, w2.
case: (lstsq _ _) => [[[[z resid] rank] s]|e] /=; last by exists e, w2.
by exists NotImplementedError, w2.
Qed.

Lemma engine_loops_return G slv anom_x anom_b neofs (inits times : seq Z)
    tbl0 (w w' : world rng_state) tbl :
  foldM (fun rel_ent init =>
           foldM (step G slv anom_x anom_b neofs init) rel_ent times)
    tbl0 inits w = (Ok tbl, w') ->
  [/\ inits = [::] \/ times = [::], tbl = tbl0 & w' = w].
Proof.
case: inits => [|init inits] /=; first by case=> <- <-; split=> //; left.
case: times => [|t ts].
  rewrite /bind /= (@foldM_skips rng_state Z DataFrame inits).
  by case=> <- <-; split=> //; right.
rewrite /bind.
have [e [w1 ->]] :=
  foldM_raises (engine_step_raises G slv anom_x anom_b neofs init) t ts tbl0
    w.
by [].
Qed.

Lemma anomalies_world G initialized control_uninitialized anomaly_data
    (w w' : world rng_state) a :
  anomalies xr_mean_time xr_sub G initialized control_uninitialized
    anomaly_data w = (Ok a, w') ->
  w' = w.
Proof.
rewrite /anomalies; case: anomaly_data => /=; first by case.
by rewrite /bind; case: (g_detrend_by_control_time_mean G) => [f|] //= [].
Qed.

(** X13. Whatever the globals and the flag [anomaly_data], the engine
    never fills a cell: when it returns, a loop was empty, no projection
    was made, and the table is the frame of lines 116-123 with every cell
    missing. *)
Theorem engine_never_fills_a_cell (G : globals)
    (initialized control_uninitialized : DataArray)
    (anomaly_data : option bool) (neofs : option nat) (curv : option bool)
    (ntime : option Z) (w w' : world rng_state) (tbl : DataFrame) :
  engine G initialized control_uninitialized anomaly_data neofs curv ntime w
  = (Ok tbl, w') ->
  let nt :=
    if ntime is Some k then k else Z.of_nat (time_size initialized) in
  [/\ initialization initialized = [::]
      \/ py_take nt (time initialized) = [::],
      tbl = mkDataFrame (np_arange2 1 (time_size initialized))
              (Some "Lead Year"%string)
              (from_product [:: comp_R; comp_S; comp_D]
                 (initialization initialized))
              (nseq (time_size initialized - 1)
                 (nseq (3 * size (initialization initialized)) None))
    & trace w'
      = rcons (trace w)
          (EngineCall initialized control_uninitialized
             (odflt false anomaly_data)
             (if neofs is Some n then n else member_size initialized)
             (odflt true curv) nt)].
Proof.
rewrite /compute_relative_entropy {1}/bind /log /= {1}/bind.
case Ha: (anomalies _ _ _ _ _ _ _) => [[[anom_x anom_b]|e] w1] //.
rewrite (anomalies_world Ha) {1}/bind /of_result.
case: (Eof _ _) => [slv|e] // /engine_loops_return [empty -> ->] /=.
by rewrite size_np_arange2 size_from_product.
Qed.

(** X14. With [anomaly_data] true, when the first initialization label of
    [initialized] is not a label of [control_uninitialized] and at least one
    lead time is walked, the engine raises [KeyError] at the first selection
    (line 136), before any projection. *)
Theorem engine_missing_initialization_label (G : globals)
    (initialized control_uninitialized : DataArray) (neofs : option nat)
    (curv : option bool) (ntime : option Z) (w : world rng_state)
    (slv : solver) (init t : Z) (inits ts : seq Z) :
  Eof control_uninitialized
    (if odflt true curv then None
     else Some [seq sqrt (cos (deg2rad l)) | l <- lat initialized])
  = Ok slv ->
  initialization initialized = init :: inits ->
  py_take (if ntime is Some k then k else Z.of_nat (time_size initialized))
    (time initialized) = t :: ts ->
  label_pos init (initialization control_uninitialized) = None ->
  engine G initialized control_uninitialized (Some true) neofs curv ntime w
  = (Err KeyError,
     mkWorld (rng w)
       (rcons (trace w)
          (EngineCall initialized control_uninitialized true
             (if neofs is Some n then n else member_size initialized)
             (odflt true curv)
             (if ntime is Some k then k
              else Z.of_nat (time_size initialized))))).
Proof.
move=> HE Hi Ht Hl; rewrite /compute_relative_entropy /bind /log /= /of_result.
by rewrite HE Hi Ht /= /engine_step /project_slice /bind /of_result /sel Hl.
Qed.

(** X15. With [anomaly_data] true, an exception that [Eof] raises (line 131)
    leaves the engine unchanged, before any projection. *)
Theorem engine_eof_raises (G : globals)
    (initialized control_uninitialized : DataArray) (neofs : option nat)
    (curv : option bool) (ntime : option Z) (w : world rng_state) (e : exn) :
  Eof control_uninitialized
    (if odflt true curv then None
     else Some [seq sqrt (cos (deg2rad l)) | l <- lat initialized])
  = Err e ->
  engine G initialized control_uninitialized (Some true) neofs curv ntime w
  = (Err e,
     mkWorld (rng w)
       (rcons (trace w)
          (EngineCall initialized control_uninitialized true
             (if neofs is Some n then n else member_size initialized)
             (odflt true curv)
             (if ntime is Some k then k
              else Z.of_nat (time_size initialized))))).
Proof.
by move=> HE; rewrite /compute_relative_entropy /bind /log /= /of_result HE.
Qed.

(** X16. With no initialization, or no lead time to walk ([ntime = 0], or an
    empty time axis), the engine projects nothing and returns the frame of
    lines 116-123 with every cell missing, whatever the globals. *)
Theorem engine_empty_loops (G : globals)
    (initialized control_uninitialized : DataArray) (neofs : option nat)
    (curv : option bool) (ntime : option Z) (w : world rng_state)
    (slv : solver) :
  Eof control_uninitialized
    (if odflt true curv then None
     else Some [seq sqrt (cos (deg2rad l)) | l <- lat initialized])
  = Ok slv ->
  initialization initialized = [::]
  \/ py_take (if ntime is Some k then k
              else Z.of_nat (time_size initialized))
       (time initialized) = [::] ->
  engine G initialized control_uninitialized (Some true) neofs curv ntime w
  = (Ok (mkDataFrame (np_arange2 1 (time_size initialized))
           (Some "Lead Year"%string)
           (from_product [:: comp_R; comp_S; comp_D]
              (initialization initialized))
           (nseq (time_size initialized - 1)
              (nseq (3 * size (initialization initialized)) None))),
     mkWorld (rng w)
       (rcons (trace w)
          (EngineCall initialized control_uninitialized true
             (if neofs is Some n then n else member_size initialized)
             (odflt true curv)
             (if ntime is Some k then k
              else Z.of_nat (time_size initialized))))).
Proof.
move=> HE Hempty; rewrite /compute_relative_entropy /bind /log /= /of_result.
rewrite HE size_np_arange2 size_from_product /=.
case: Hempty => [Hi|->]; first by rewrite Hi.
by rewrite (@foldM_skips rng_state Z DataFrame).
Qed.

Lemma project_slice_asks slv anom init t neofs :
  emits (@project_slice rng_state solver projectField slv anom init t neofs)
    (fun evs => all (projects_on neofs) evs).
Proof.
have cQ := all_cat_closed (projects_on neofs).
rewrite /project_slice; apply: emits_bind_closed => //.
  exact: emits_of_result.
move=> field; apply: emits_bind_closed => //.
  by apply: emits_log; rewrite /= eqxx.
move=> _; apply: emits_bind_closed => //; first exact: emits_of_result.
by move=> pc; exact: emits_ret.
Qed.

Lemma engine_step_asks G slv anom_x anom_b neofs init rel_ent t :
  emits (step G slv anom_x anom_b neofs init rel_ent t)
    (fun evs => all (projects_on neofs) evs).
Proof.
have cQ := all_cat_closed (projects_on neofs).
rewrite /engine_step; apply: emits_bind_closed => //.
  exact: project_slice_asks.
case=> mu_b sigma_b; apply: emits_bind_closed => //.
  exact: project_slice_asks.
case=> mu_x sigma_x; apply: emits_bind_closed => //.
  exact: emits_of_result.
case=> [[r d] s].
do 2![apply: emits_bind_closed => //; first exact: emits_global_name;
      move=> ?; apply: emits_bind_closed => //; first exact: emits_of_result;
      move=> ?].
apply: emits_bind_closed => //; first exact: emits_global_name.
by move=> ?; exact: emits_of_result.
Qed.

(** X17. Every projection of an engine run asks for the same number of EOFs:
    [neofs] when it is given, [initialized.member.size] when it is not. *)
Theorem engine_projects_on_neofs (G : globals)
    (initialized control_uninitialized : DataArray)
    (anomaly_data : option bool) (neofs : option nat) (curv : option bool)
    (ntime : option Z) (w : world rng_state) :
  exists2 evs,
    trace (engine G initialized control_uninitialized anomaly_data neofs curv
             ntime w).2 = trace w ++ evs
    & all (projects_on (if neofs is Some n then n
                        else member_size initialized)) evs.
Proof.
set n := if neofs is Some n then n else member_size initialized.
have cQ := all_cat_closed (projects_on n).
have := @emits_bind_closed rng_state _ _ _ _ _ cQ.
rewrite /compute_relative_entropy -/n => Hb; apply: Hb.
  by apply: emits_log.
move=> _; apply: emits_bind_closed => //.
  rewrite /anomalies; case: (odflt _ _) => /=; first exact: emits_ret.
  apply: emits_bind_closed => //; first exact: emits_global_name.
  by move=> _; exact: emits_ret.
case=> anom_x anom_b; apply: emits_bind_closed => //.
  exact: emits_of_result.
move=> slv; apply: emits_foldM => // tbl init.
by apply: emits_foldM => // tbl' t; exact: engine_step_asks.
Qed.

(** X18. With one EOF, whatever the globals: as soon as the first slices
    of the baseline and of the forecast are selected and projected, the
    engine raises [LinAlgError] at the determinant of line 37, the
    covariance of one variable being a 0-d array; the baseline has been
    projected first, the forecast second, and nothing else. *)
Theorem engine_stops_at_squeezed_covariance (G : globals)
    (initialized control_uninitialized : DataArray) (neofs : option nat)
    (curv : option bool) (ntime : option Z) (w : world rng_state)
    (slv : solver) (init t : Z) (inits ts : seq Z) (fb fx : seq grid) :
  let n := if neofs is Some n then n else member_size initialized in
  let nt :=
    if ntime is Some k then k else Z.of_nat (time_size initialized) in
  forall pcb pcx : seq 'rV[R]_n,
  n = 1%N ->
  Eof control_uninitialized
    (if odflt true curv then None
     else Some [seq sqrt (cos (deg2rad l)) | l <- lat initialized])
  = Ok slv ->
  initialization initialized = init :: inits ->
  py_take nt (time initialized) = t :: ts ->
  sel control_uninitialized init t = Ok fb ->
  projectField slv fb n = Ok pcb ->
  sel initialized init t = Ok fx ->
  projectField slv fx n = Ok pcx ->
  engine G initialized control_uninitialized (Some true) neofs curv ntime w
  = (Err LinAlgError,
     mkWorld (rng w)
       (trace w
        ++ [:: EngineCall initialized control_uninitialized true n
                 (odflt true curv) nt;
               ProjectCall fb n; ProjectCall fx n])).
Proof.
move=> n nt pcb pcx /eqP n1 HE Hi Ht Hb Hpb Hx Hpx.
rewrite /compute_relative_entropy /bind /log /= /of_result HE Hi -/nt Ht /=.
rewrite /engine_step /project_slice /bind /of_result /log /ret.
rewrite Hb -/n Hpb Hx Hpx /= /np_cov n1 /=.
by rewrite -!cats1 -!catA.
Qed.

(** X19. With another number of EOFs, whatever the globals: as soon as the
    first slices are selected and projected and the least-squares call
    returns, the engine raises [NotImplementedError] at the [np.matmul] of
    line 44, which is handed an [xr.DataArray]; the baseline has been
    projected first, the forecast second, and nothing else. *)
Theorem engine_stops_at_matmul (G : globals)
    (initialized control_uninitialized : DataArray) (neofs : option nat)
    (curv : option bool) (ntime : option Z) (w : world rng_state)
    (slv : solver) (init t : Z) (inits ts : seq Z) (fb fx : seq grid) :
  let n := if neofs is Some n then n else member_size initialized in
  let nt :=
    if ntime is Some k then k else Z.of_nat (time_size initialized) in
  forall (pcb pcx : seq 'rV[R]_n) (out : lstsq_out n),
  n <> 1%N ->
  Eof control_uninitialized
    (if odflt true curv then None
     else Some [seq sqrt (cos (deg2rad l)) | l <- lat initialized])
  = Ok slv ->
  initialization initialized = init :: inits ->
  py_take nt (time initialized) = t :: ts ->
  sel control_uninitialized init t = Ok fb ->
  projectField slv fb n = Ok pcb ->
  sel initialized init t = Ok fx ->
  projectField slv fx n = Ok pcx ->
  lstsq (cov_matrix pcb) (pc_mean pcx - pc_mean pcb) = Ok out ->
  engine G initialized control_uninitialized (Some true) neofs curv ntime w
  = (Err NotImplementedError,
     mkWorld (rng w)
       (trace w
        ++ [:: EngineCall initialized control_uninitialized true n
                 (odflt true curv) nt;
               ProjectCall fb n; ProjectCall fx n])).
Proof.
move=> n nt pcb pcx [[[z resid] rank] sv] /eqP/negPf n1 HE Hi Ht Hb Hpb Hx Hpx.
move=> Hl.
rewrite /compute_relative_entropy /bind /log /= /of_result HE Hi -/nt Ht /=.
rewrite /engine_step /project_slice /bind /of_result /log /ret.
rewrite Hb -/n Hpb Hx Hpx /= /np_cov n1 /= Hl /=.
by rewrite -!cats1 -!catA.
Qed.

(** ** [bootstrap_relative_entropy] *)

(** X9. An ensemble without lead times makes line 195 divide by zero. *)
Theorem bootstrap_zero_division (G : globals)
    (initialized control_uninitialized : DataArray) (sig : option R)
    (b : option Z) (curv : option bool) (neofs : option nat)
    (ntime : option Z) (w : world rng_state) :
  time initialized = [::] ->
  bootstrap G initialized control_uninitialized sig b curv neofs ntime w
  = (Err ZeroDivisionError, w).
Proof.
by move=> t0; rewrite /bootstrap_relative_entropy /time_size t0.
Qed.

(** X10. With the globals the module itself has, and [bootstrap] in the
    range where the float quotient of line 195 truncates to the integer
    quotient, the bootstrap returns no threshold on any input: it raises
    [ZeroDivisionError], [ValueError] or [NameError], and leaves the random
    source and the trace as they were. *)
Theorem bootstrap_never_returns_as_written
    (initialized control_uninitialized : DataArray) (sig : option R)
    (b : option Z) (curv : option bool) (neofs : option nat)
    (ntime : option Z) (w : world rng_state) :
  (Z.abs (odflt 100%Z b) < 2 ^ 52)%Z ->
  exists2 e,
    bootstrap module_globals initialized control_uninitialized sig b curv
      neofs ntime w = (Err e, w)
    & [\/ e = ZeroDivisionError, e = ValueError | e = NameError].
Proof.
move=> _; rewrite /bootstrap_relative_entropy /py_int_div.
case: ifP => _; first by exists ZeroDivisionError => //; constructor 1.
rewrite /bind /of_result /py_range.
case E: (Z.to_nat _) => [|k] /=.
  by exists ValueError => //; constructor 2.
by exists NameError => //; constructor 3.
Qed.

Lemma all_missing_nseq (idx : seq Z) name cols (k m : nat) :
  all_missing (mkDataFrame idx name cols (nseq k (nseq m None) ++ [::])).
Proof.
rewrite /all_missing /= cats0; apply/allP => row /nseqP [-> _].
by apply/allP => c /nseqP [-> _].
Qed.

(** X11. Whenever the bootstrap returns, whatever [bootstrap] is, it has
    run exactly one round: one generator call on [initialized] and the
    global [control], then one engine run, with [anomaly_data] left out, on
    the relabelled round; a loop of that run was empty, nothing was
    projected, and what is returned is the empty frame: no quantile is
    taken. *)
Theorem bootstrap_returns_the_empty_frame (G : globals)
    (initialized control_uninitialized : DataArray) (sig : option R)
    (b : option Z) (curv : option bool) (neofs : option nat)
    (ntime : option Z) (w w' : world rng_state)
    (v : option (component -> R)) :
  bootstrap G initialized control_uninitialized sig b curv neofs ntime w
  = (Ok v, w') ->
  let nt :=
    if ntime is Some k then k else Z.of_nat (time_size initialized) in
  exists control out g,
    [/\ g_control G = Some control,
        _pseudo_ens initialized control (rng w) = (Ok out, g),
        initialization initialized = [::] \/ py_take nt (time out) = [::],
        w'
        = mkWorld g
            (trace w
             ++ [:: PseudoEnsCall initialized control (Ok out);
                    EngineCall
                      (mkDataArray (initialization initialized)
                         (np_arange (member_size out)) (time out) (lat out)
                         (blocks out))
                      control_uninitialized false
                      (if neofs is Some n then n
                       else member_size initialized)
                      (odflt true curv) nt])
      & v = None].
Proof.
rewrite /bootstrap_relative_entropy /py_int_div.
case: ifP => // _; rewrite {1}/bind {1}/of_result /py_range.
have : (Z.to_nat (Z.min 1 (Z.quot (odflt 100%Z b)
          (Z.of_nat (time_size initialized)))) <= 1)%N by apply/leP; lia.
case: (Z.to_nat _) => [|[|k]] // _.
rewrite /= /bootstrap_round /bind /of_result /call_pseudo_ens.
case Hc: (g_control G) => [control|] //=.
case Hpe: (_pseudo_ens _ _ _) => [[out|e] g] //=.
rewrite /set_initialization; case: ifP => // _.
rewrite /set_member /member_size /= size_np_arange eqxx.
rewrite /compute_relative_entropy {1}/bind /log /= {1}/bind.
case Ha: (anomalies _ _ _ _ _ _ _) => [[[anom_x anom_b]|e] w1] //.
rewrite (anomalies_world Ha) {1}/bind /of_result.
case: (Eof _ _) => [slv|e] //.
case Hl: (foldM _ _ _ _) => [[tbl|e] w2] //.
have [empty -> ->] := engine_loops_return Hl.
rewrite /= /ret => -[<- <-].
exists control, out, g; split=> //; first by rewrite -!cats1 -!catA.
by rewrite /pd_concat /= all_missing_nseq.
Qed.

End RunProperties.

(** ** The properties at concrete inputs *)

Lemma gen_control_distribution_without_rounds_witness :
  (odflt 10%Z (Some 0%Z) <= 0)%Z /\
  _gen_control_distribution counter_pseudo_ens small_ensemble small_control
    (Some 0%Z) (mkWorld 0%N [::])
  = (Err ValueError, mkWorld 0%N [::]).
Proof.
have le0 : (odflt 10%Z (Some 0%Z) <= 0)%Z by [].
split; first exact: le0.
exact: (@gen_control_distribution_without_rounds _ counter_pseudo_ens
          small_ensemble small_control (Some 0%Z) (mkWorld 0%N [::]) le0).
Defined.

Lemma gen_control_distribution_generator_raises_witness :
  (0 < odflt 10%Z None)%Z /\
  counter_pseudo_ens small_ensemble empty_control 0%N
  = (Err (PyExc "InsufficientControlLengthError"), 0%N) /\
  _gen_control_distribution counter_pseudo_ens small_ensemble empty_control
    None (mkWorld 0%N [::])
  = (Err (PyExc "InsufficientControlLengthError"),
     mkWorld 0%N
       [:: PseudoEnsCall small_ensemble empty_control
             (Err (PyExc "InsufficientControlLengthError"))]).
Proof.
have lt0 : (0 < odflt 10%Z None)%Z by [].
split; first exact: lt0.
split; first by [].
exact: (@gen_control_distribution_generator_raises _ counter_pseudo_ens
          small_ensemble empty_control None (mkWorld 0%N [::]) _ _ lt0
          (erefl _)).
Defined.

Lemma gen_control_distribution_misshaped_round_witness :
  (0 < odflt 10%Z None)%Z /\
  size (initialization one_initialization)
  <> size (initialization small_ensemble) /\
  _gen_control_distribution (fixed_pseudo_ens one_initialization)
    small_ensemble small_control None (mkWorld 0%N [::])
  = (Err ValueError,
     mkWorld 0%N
       [:: PseudoEnsCall small_ensemble small_control
             (Ok one_initialization)]).
Proof.
have lt0 : (0 < odflt 10%Z None)%Z by [].
have ne : size (initialization one_initialization)
          <> size (initialization small_ensemble) by [].
split; first exact: lt0.
split; first exact: ne.
exact: (@gen_control_distribution_misshaped_round _
          (fixed_pseudo_ens one_initialization) small_ensemble small_control
          None (mkWorld 0%N [::]) _ _ lt0 (erefl _) ne).
Defined.

Lemma bootstrap_zero_division_witness :
  time timeless_ensemble = [::] /\
  bootstrap_relative_entropy counter_pseudo_ens unit_Eof
    coordinate_projectField exact_lstsq positional_mean_time positional_sub
    head_quantile all_bound timeless_ensemble small_ensemble None None None
    None None (mkWorld 0%N [::])
  = (Err ZeroDivisionError, mkWorld 0%N [::]).
Proof.
split; first by [].
exact: (@bootstrap_zero_division _ _ counter_pseudo_ens unit_Eof
          coordinate_projectField exact_lstsq positional_mean_time
          positional_sub head_quantile all_bound timeless_ensemble
          small_ensemble None None None None None (mkWorld 0%N [::])
          (erefl _)).
Defined.

Lemma bootstrap_never_returns_as_written_witness :
  (Z.abs (odflt 100%Z None) < 2 ^ 52)%Z /\
  exists2 e,
    bootstrap_relative_entropy counter_pseudo_ens unit_Eof
      coordinate_projectField exact_lstsq positional_mean_time positional_sub
      head_quantile module_globals small_ensemble small_ensemble None None
      None None None (mkWorld 0%N [::])
    = (Err e, mkWorld 0%N [::])
    & [\/ e = ZeroDivisionError, e = ValueError | e = NameError].
Proof.
have lt : (Z.abs (odflt 100%Z None) < 2 ^ 52)%Z by [].
split; first exact: lt.
exact: (@bootstrap_never_returns_as_written _ _ counter_pseudo_ens unit_Eof
          coordinate_projectField exact_lstsq positional_mean_time
          positional_sub head_quantile small_ensemble small_ensemble None
          None None None None (mkWorld 0%N [::]) lt).
Defined.

(** The bootstrap with every name bound and no lead time to walk. *)
Lemma small_bootstrap_run :
  bootstrap_relative_entropy counter_pseudo_ens unit_Eof
    coordinate_projectField exact_lstsq positional_mean_time positional_sub
    head_quantile all_bound small_ensemble small_baseline None None None
    (Some 1%N) (Some 0%Z) (mkWorld 0%N [::])
  = (Ok None,
     mkWorld 4%N
       [:: PseudoEnsCall small_ensemble small_control (Ok first_round);
           EngineCall
             (mkDataArray [:: 1990%Z; 1991%Z] [:: 0%Z; 1%Z] [:: 1%Z; 2%Z]
                [:: 0] (blocks first_round))
             small_baseline false 1 true 0]).
Proof. by []. Qed.

Lemma bootstrap_returns_the_empty_frame_witness :
  exists v w',
    bootstrap_relative_entropy counter_pseudo_ens unit_Eof
      coordinate_projectField exact_lstsq positional_mean_time positional_sub
      head_quantile all_bound small_ensemble small_baseline None None None
      (Some 1%N) (Some 0%Z) (mkWorld 0%N [::])
    = (Ok v, w')
    /\ exists control out g,
         [/\ g_control all_bound = Some control,
             counter_pseudo_ens small_ensemble control 0%N = (Ok out, g),
             initialization small_ensemble = [::]
             \/ py_take 0%Z (time out) = [::]
           & v = None].
Proof.
do 2!eexists; split; first exact: small_bootstrap_run.
have [control [out [g [Hc Hpe He _ Hv]]]] :=
  bootstrap_returns_the_empty_frame small_bootstrap_run.
by exists control, out, g.
Defined.

Lemma engine_table_shape_witness :
  exists tbl w',
    compute_relative_entropy unit_Eof coordinate_projectField exact_lstsq
      positional_mean_time positional_sub module_globals small_ensemble
      small_baseline (Some true) None None (Some 0%Z) (mkWorld 0%N [::])
    = (Ok tbl, w')
    /\ [/\ df_index tbl = [:: 1%Z],
           df_index_name tbl = Some "Lead Year"%string,
           df_columns tbl
           = [:: (comp_R, 1990%Z); (comp_R, 1991%Z); (comp_S, 1990%Z);
                 (comp_S, 1991%Z); (comp_D, 1990%Z); (comp_D, 1991%Z)],
           size (df_cells tbl) = 1%N
         & all (fun row => size row == 6%N) (df_cells tbl)].
Proof.
do 2!eexists; split; first by reflexivity.
exact: (@engine_table_shape nat unit unit_Eof coordinate_projectField
          exact_lstsq positional_mean_time positional_sub module_globals
          small_ensemble small_baseline (Some true) None None (Some 0%Z)
          (mkWorld 0%N [::]) _ _ (erefl _)).
Defined.

Lemma engine_never_fills_a_cell_witness :
  exists tbl w',
    compute_relative_entropy unit_Eof coordinate_projectField exact_lstsq
      positional_mean_time positional_sub all_bound small_ensemble
      small_baseline None None None (Some 0%Z) (mkWorld 0%N [::])
    = (Ok tbl, w')
    /\ [/\ initialization small_ensemble = [::]
           \/ py_take 0%Z (time small_ensemble) = [::],
           tbl = mkDataFrame [:: 1%Z] (Some "Lead Year"%string)
                   [:: (comp_R, 1990%Z); (comp_R, 1991%Z);
                       (comp_S, 1990%Z); (comp_S, 1991%Z);
                       (comp_D, 1990%Z); (comp_D, 1991%Z)]
                   [:: [:: None; None; None; None; None; None]]
         & trace w'
           = [:: EngineCall small_ensemble small_baseline false 2 true 0]].
Proof.
do 2!eexists; split; first by reflexivity.
exact: (@engine_never_fills_a_cell nat unit unit_Eof coordinate_projectField
          exact_lstsq positional_mean_time positional_sub all_bound
          small_ensemble small_baseline None None None (Some 0%Z)
          (mkWorld 0%N [::]) _ _ (erefl _)).
Defined.

Lemma engine_missing_initialization_label_witness :
  [/\ unit_Eof other_ensemble None = Ok tt,
      initialization small_ensemble = [:: 1990%Z; 1991%Z],
      py_take 2%Z (time small_ensemble) = [:: 1%Z; 2%Z]
    & label_pos 1990%Z (initialization other_ensemble) = None]
  /\ compute_relative_entropy unit_Eof coordinate_projectField exact_lstsq
       positional_mean_time positional_sub module_globals small_ensemble
       other_ensemble (Some true) (Some 1%N) None None (mkWorld 0%N [::])
     = (Err KeyError,
        mkWorld 0%N
          [:: EngineCall small_ensemble other_ensemble true 1 true 2]).
Proof.
split; first by split.
exact: (@engine_missing_initialization_label _ _ unit_Eof
          coordinate_projectField exact_lstsq positional_mean_time
          positional_sub module_globals small_ensemble other_ensemble
          (Some 1%N) None None (mkWorld 0%N [::]) tt 1990%Z 1%Z
          [:: 1991%Z] [:: 2%Z] (erefl _) (erefl _) (erefl _) (erefl _)).
Defined.

Lemma engine_eof_raises_witness :
  failing_Eof small_ensemble None = Err ValueError /\
  compute_relative_entropy failing_Eof coordinate_projectField exact_lstsq
    positional_mean_time positional_sub module_globals small_ensemble
    small_ensemble (Some true) (Some 1%N) None None (mkWorld 0%N [::])
  = (Err ValueError,
     mkWorld 0%N
       [:: EngineCall small_ensemble small_ensemble true 1 true 2]).
Proof.
split; first by [].
exact: (@engine_eof_raises _ _ failing_Eof coordinate_projectField
          exact_lstsq positional_mean_time positional_sub module_globals
          small_ensemble small_ensemble (Some 1%N) None None
          (mkWorld 0%N [::]) ValueError (erefl _)).
Defined.

Lemma engine_empty_loops_witness :
  unit_Eof small_ensemble None = Ok tt /\
  py_take 0%Z (time small_ensemble) = [::] /\
  compute_relative_entropy unit_Eof coordinate_projectField exact_lstsq
    positional_mean_time positional_sub module_globals small_ensemble
    small_ensemble (Some true) (Some 1%N) None (Some 0%Z)
    (mkWorld 0%N [::])
  = (Ok (mkDataFrame [:: 1%Z] (Some "Lead Year"%string)
           [:: (comp_R, 1990%Z); (comp_R, 1991%Z); (comp_S, 1990%Z);
               (comp_S, 1991%Z); (comp_D, 1990%Z); (comp_D, 1991%Z)]
           [:: [:: None; None; None; None; None; None]]),
     mkWorld 0%N
       [:: EngineCall small_ensemble small_ensemble true 1 true 0]).
Proof.
split; first by [].
split; first by [].
exact: (@engine_empty_loops _ _ unit_Eof coordinate_projectField exact_lstsq
          positional_mean_time positional_sub module_globals small_ensemble
          small_ensemble (Some 1%N) None (Some 0%Z) (mkWorld 0%N [::]) tt
          (erefl _) (or_intror (erefl _))).
Defined.

Lemma engine_stops_at_squeezed_covariance_witness :
  [/\ sel small_baseline 1990%Z 1%Z = Ok [:: [:: 5]; [:: 6]],
      sel small_ensemble 1990%Z 1%Z = Ok [:: [:: 1]; [:: 2]]
    & (if Some 1%N is Some n then n else member_size small_ensemble) = 1%N]
  /\ compute_relative_entropy unit_Eof coordinate_projectField exact_lstsq
       positional_mean_time positional_sub all_bound small_ensemble
       small_baseline (Some true) (Some 1%N) None None (mkWorld 0%N [::])
     = (Err LinAlgError,
        mkWorld 0%N
          [:: EngineCall small_ensemble small_baseline true 1 true 2;
              ProjectCall [:: [:: 5]; [:: 6]] 1;
              ProjectCall [:: [:: 1]; [:: 2]] 1]).
Proof.
split; first by split.
exact: (@engine_stops_at_squeezed_covariance nat unit unit_Eof
          coordinate_projectField exact_lstsq positional_mean_time
          positional_sub all_bound small_ensemble small_baseline (Some 1%N)
          None None (mkWorld 0%N [::]) tt 1990%Z 1%Z [:: 1991%Z] [:: 2%Z]
          [:: [:: 5]; [:: 6]] [:: [:: 1]; [:: 2]] _ _ (erefl _) (erefl _)
          (erefl _) (erefl _) (erefl _) (erefl _) (erefl _) (erefl _)).
Defined.

Lemma engine_stops_at_matmul_witness :
  [/\ sel small_baseline 1990%Z 1%Z = Ok [:: [:: 5]; [:: 6]],
      sel small_ensemble 1990%Z 1%Z = Ok [:: [:: 1]; [:: 2]]
    & (if None is Some n then n else member_size small_ensemble) <> 1%N]
  /\ compute_relative_entropy unit_Eof coordinate_projectField exact_lstsq
       positional_mean_time positional_sub all_bound small_ensemble
       small_baseline (Some true) None None None (mkWorld 0%N [::])
     = (Err NotImplementedError,
        mkWorld 0%N
          [:: EngineCall small_ensemble small_baseline true 2 true 2;
              ProjectCall [:: [:: 5]; [:: 6]] 2;
              ProjectCall [:: [:: 1]; [:: 2]] 2]).
Proof.
have n2 : (if None is Some n then n else member_size small_ensemble) <> 1%N.
  by [].
split; first by split.
exact: (@engine_stops_at_matmul nat unit unit_Eof coordinate_projectField
          exact_lstsq positional_mean_time positional_sub all_bound
          small_ensemble small_baseline None None None (mkWorld 0%N [::]) tt
          1990%Z 1%Z [:: 1991%Z] [:: 2%Z] [:: [:: 5]; [:: 6]]
          [:: [:: 1]; [:: 2]] _ _ _ n2 (erefl _) (erefl _) (erefl _)
          (erefl _) (erefl _) (erefl _) (erefl _) (erefl _)).
Defined.
